(** * decom-eta: progress and ETA of a pool decommission

    A shallow embedding of [main.go]: the per-pool loop of [main] and
    [formatDuration], together with the parts of Go they rest on (64-bit
    integers that wrap, IEEE-754 binary64 arithmetic, [time.Duration] and
    [time.Time]).  Floating point is modelled by the executable
    specification [SpecFloat] of the Standard Library at precision 53 and
    maximal exponent 1024, so every definition below computes. *)

From Stdlib Require Import ZArith Lia Bool List String Ascii.
From Stdlib Require Import DecimalString.
From Stdlib Require Import SpecFloat.
From Stdlib Require Import QArith Qpower Lqa.
Import ListNotations.

Local Open Scope Z_scope.

(* ================================================================= *)
(** ** Go's [int64] / [int] / [uint64] *)

Module Int64.

Definition min_int : Z := - 2 ^ 63.
Definition max_int : Z := 2 ^ 63 - 1.

Definition in_range (z : Z) : Prop := min_int <= z <= max_int.

(** Two's complement wrap-around of an exact result. *)
Definition wrap (z : Z) : Z := (z + 2 ^ 63) mod 2 ^ 64 - 2 ^ 63.

Definition add (a b : Z) : Z := wrap (a + b).
Definition sub (a b : Z) : Z := wrap (a - b).
Definition mul (a b : Z) : Z := wrap (a * b).

(** Go's [/] and [%] truncate toward zero. *)
Definition quot (a b : Z) : Z := wrap (Z.quot a b).
Definition rem (a b : Z) : Z := Z.rem a b.

(** The conversion [uint64(x)] of a signed value. *)
Definition to_uint64 (a : Z) : Z := a mod 2 ^ 64.

End Int64.

(* ================================================================= *)
(** ** Go's [float64] *)

Module Float64.

Definition t : Type := spec_float.

Definition prec : Z := 53.
Definition emax : Z := 1024.

(** [float64(x)] for an integer [x]: round to nearest, ties to even. *)
Definition of_int (z : Z) : t := binary_normalize prec emax z 0 false.

Definition add : t -> t -> t := SFadd prec emax.
Definition sub : t -> t -> t := SFsub prec emax.
Definition mul : t -> t -> t := SFmul prec emax.
Definition div : t -> t -> t := SFdiv prec emax.

Definition ltb : t -> t -> bool := SFltb.
Definition leb : t -> t -> bool := SFleb.

(** [x > y] is [y < x]. *)
Definition gtb (x y : t) : bool := ltb y x.

(** The integer part of a finite value, rounding toward zero. *)
Definition trunc (x : t) : option Z :=
  match x with
  | S754_zero _ => Some 0
  | S754_finite s m e =>
      let a := if 0 <=? e then Z.shiftl (Zpos m) e
               else Z.shiftr (Zpos m) (- e) in
      Some (if s then - a else a)
  | S754_infinity _ | S754_nan => None
  end.

(** What the conversion instructions of amd64 deliver for a value that
    does not fit (Go leaves that case to the implementation). *)
Definition indefinite : Z := Int64.min_int.

(** [int64(x)] and [int(x)]. *)
Definition to_int (x : t) : Z :=
  match trunc x with
  | Some z => if (Int64.min_int <=? z) && (z <=? Int64.max_int) then z
              else indefinite
  | None => indefinite
  end.

(** [uint64(x)]. *)
Definition to_uint64 (x : t) : Z :=
  match trunc x with
  | Some z => if (0 <=? z) && (z <? 2 ^ 64) then z
              else 2 ^ 63
  | None => 2 ^ 63
  end.

End Float64.

Definition float64 : Type := Float64.t.

(* ================================================================= *)
(** ** Package [time] *)

Module Time.

(** A [Duration] is an [int64] count of nanoseconds. *)
Definition Duration : Type := Z.

Definition Nanosecond : Duration := 1.
Definition Second : Duration := 1000000000.
Definition Minute : Duration := 60 * Second.
Definition Hour : Duration := 60 * Minute.

Definition minDuration : Duration := Int64.min_int.
Definition maxDuration : Duration := Int64.max_int.

(** [func (d Duration) Seconds() float64] *)
Definition Seconds (d : Duration) : float64 :=
  let sec := Int64.quot d Second in
  let nsec := Int64.rem d Second in
  Float64.add (Float64.of_int sec)
              (Float64.div (Float64.of_int nsec) (Float64.of_int 1000000000)).

(** [func (d Duration) Minutes() float64] *)
Definition Minutes (d : Duration) : float64 :=
  let min := Int64.quot d Minute in
  let nsec := Int64.rem d Minute in
  Float64.add (Float64.of_int min)
              (Float64.div (Float64.of_int nsec) (Float64.of_int (60 * 1000000000))).

(** [func (d Duration) Hours() float64] *)
Definition Hours (d : Duration) : float64 :=
  let h := Int64.quot d Hour in
  let nsec := Int64.rem d Hour in
  Float64.add (Float64.of_int h)
              (Float64.div (Float64.of_int nsec) (Float64.of_int (60 * 60 * 1000000000))).

(** An instant, as the number of nanoseconds since the zero [Time]
    (January 1, year 1, 00:00:00 UTC).  Wall-clock readings only: a
    decoded [StartTime] carries no monotonic reading. *)
Definition Time : Type := Z.

Definition IsZero (t : Time) : bool := t =? 0.

(** [t.Sub(u)]: the difference, saturated to the range of [Duration]. *)
Definition Sub (t u : Time) : Duration :=
  if t - u <? minDuration then minDuration
  else if maxDuration <? t - u then maxDuration
  else t - u.

(** [t.Add(d)]. *)
Definition Add (t : Time) (d : Duration) : Time := t + d.

End Time.


(* ================================================================= *)
(** ** The pool status of [madmin] (the fields [main] reads) *)

Record PoolDecommissionInfo : Type := mkDecom {
  StartTime   : Time.Time;
  StartSize   : Z;
  TotalSize   : Z;
  CurrentSize : Z;
  Complete    : bool;
  Failed      : bool;
  Canceled    : bool
}.

Record PoolStatus : Type := mkPool {
  ID           : Z;
  CmdLine      : string;
  Decommission : option PoolDecommissionInfo   (* a pointer, possibly nil *)
}.

(** The counters are [int64], the pool index an [int]. *)
Definition wf_decom (d : PoolDecommissionInfo) : Prop :=
  Int64.in_range (StartSize d) /\ Int64.in_range (TotalSize d) /\
  Int64.in_range (CurrentSize d).

(* ================================================================= *)
(** ** [formatDuration] *)

(** [fmt.Sprintf("%d", n)] *)
Definition sprintf_d (n : Z) : string := NilZero.string_of_int (Z.to_int n).

Definition formatDuration (d : Time.Duration) : string :=
  let days := Int64.quot (Float64.to_int (Time.Hours d)) 24 in
  let hours := Int64.rem (Float64.to_int (Time.Hours d)) 24 in
  let mins := Int64.rem (Float64.to_int (Time.Minutes d)) 60 in
  let parts := [] in
  let parts := if 0 <? days then parts ++ [sprintf_d days ++ "d"]%string else parts in
  let parts := if 0 <? hours then parts ++ [sprintf_d hours ++ "h"]%string else parts in
  let parts := if 0 <? mins then parts ++ [sprintf_d mins ++ "m"]%string else parts in
  if (Z.of_nat (List.length parts) =? 0) then "< 1m"%string
  else String.concat " " parts.

(* ================================================================= *)
(** ** What [main] prints *)

(** One value per call of [fmt.Printf] / [fmt.Println] in the loop of
    [main], holding the arguments of the call. *)
Inductive line : Type :=
| LPool (number : Z) (cmdLine : string)
    (* "Pool #%d: %s\n" *)
| LStarted (start now : Time.Time)
    (* "  Started: %s (%s ago)\n" *)
| LProgress (freed initial : Z) (percent : float64)
    (* "  Progress: %s / %s freed (%.1f%%)\n" *)
| LUsage (used total : Z) (percent : float64)
    (* "  Current usage: %s / %s (%.1f%%)\n" *)
| LSpeed (bytesPerSec : Z)
    (* "  Speed: %s/sec\n" *)
| LETA (eta : Time.Time) (remaining : string)
    (* "  ETA: %s (%s remaining)\n" *)
| LStarting
    (* "  Decommissioning is starting, ETA not yet available..." *)
| LBlank
    (* fmt.Println() *)
| LNoPools.
    (* "No pools are currently being decommissioned." *)

Section Render.

(** Formatting done by other packages. *)
Variable IBytes : Z -> string.                      (* humanize.IBytes *)
Variable RelTime : Time.Time -> Time.Time -> string. (* humanize.RelTime(a, b, "", "") *)
Variable FormatRFC3339 : Time.Time -> string.       (* t.Format(time.RFC3339) *)
Variable sprintf_1f : float64 -> string.            (* "%.1f" *)

Definition nl : string := String (ascii_of_nat 10) EmptyString.

Definition render (l : line) : string :=
  match l with
  | LPool n c => "Pool #" ++ sprintf_d n ++ ": " ++ c ++ nl
  | LStarted s now =>
      "  Started: " ++ FormatRFC3339 s ++ " (" ++ RelTime s now ++ " ago)" ++ nl
  | LProgress f i p =>
      "  Progress: " ++ IBytes f ++ " / " ++ IBytes i ++ " freed ("
        ++ sprintf_1f p ++ "%)" ++ nl
  | LUsage u t p =>
      "  Current usage: " ++ IBytes u ++ " / " ++ IBytes t ++ " ("
        ++ sprintf_1f p ++ "%)" ++ nl
  | LSpeed b => "  Speed: " ++ IBytes b ++ "/sec" ++ nl
  | LETA t r => "  ETA: " ++ FormatRFC3339 t ++ " (" ++ r ++ " remaining)" ++ nl
  | LStarting => "  Decommissioning is starting, ETA not yet available..." ++ nl
  | LBlank => nl
  | LNoPools => "No pools are currently being decommissioned." ++ nl
  end%string.

Definition render_all (ls : list line) : string :=
  String.concat "" (map render ls).

End Render.

(* ================================================================= *)
(** ** The effects of [main]: the wall clock, standard output *)

(** [clock] gives the successive readings of the wall clock, [reads]
    counts the readings already taken, [stdout] is what has been
    printed (oldest first).  [divisors] is a ghost field: it records the
    right operand of every floating-point division executed by [main]
    itself. *)
Record World : Type := mkWorld {
  clock    : nat -> Time.Time;
  reads    : nat;
  stdout   : list line;
  divisors : list float64
}.

Definition M (A : Type) : Type := World -> A * World.

Definition ret {A} (a : A) : M A := fun w => (a, w).

Definition bind {A B} (c : M A) (k : A -> M B) : M B :=
  fun w => let (a, w') := c w in k a w'.

Notation "x <- c ;; k" := (bind c (fun x => k))
  (at level 61, c at next level, right associativity).
Notation "c ;; k" := (bind c (fun _ => k))
  (at level 61, right associativity).

(** [time.Now()] *)
Definition Now : M Time.Time :=
  fun w => (clock w (reads w),
            mkWorld (clock w) (S (reads w)) (stdout w) (divisors w)).

(** [time.Since(t)] is [time.Now().Sub(t)]. *)
Definition Since (t : Time.Time) : M Time.Duration :=
  now <- Now ;; ret (Time.Sub now t).

Definition print (l : line) : M unit :=
  fun w => (tt, mkWorld (clock w) (reads w) (stdout w ++ [l]) (divisors w)).

(** [x / y] on [float64] (never panics in Go). *)
Definition fdiv (x y : float64) : M float64 :=
  fun w => (Float64.div x y,
            mkWorld (clock w) (reads w) (stdout w) (divisors w ++ [y])).

(* ================================================================= *)
(** ** The loop of [main] *)

Definition zero : float64 := S754_zero false.

(** The quantities computed at lines 131-133. *)
Definition initialUsed (d : PoolDecommissionInfo) : Z :=
  Int64.sub (TotalSize d) (StartSize d).
Definition bytesFreed (d : PoolDecommissionInfo) : Z :=
  Int64.sub (CurrentSize d) (StartSize d).
Definition usedNow (d : PoolDecommissionInfo) : Z :=
  Int64.sub (TotalSize d) (CurrentSize d).

(** The condition of line 140. *)
Definition enoughSignal (d : PoolDecommissionInfo) (elapsed : Time.Duration) : bool :=
  (0 <? bytesFreed d) && (0 <? initialUsed d)
  && Float64.gtb (Time.Seconds elapsed) (Float64.of_int 10).

(** [progress] of line 141. *)
Definition progressOf (d : PoolDecommissionInfo) : float64 :=
  Float64.div (Float64.of_int (bytesFreed d)) (Float64.of_int (initialUsed d)).

(** Lines 154-162. *)
Definition etaBlock (elapsed : Time.Duration) (progress : float64) : M unit :=
  if Float64.gtb progress zero && Float64.ltb progress (Float64.of_int 1) then
    totalEstimated <- fdiv (Time.Seconds elapsed) progress ;;
    let etaSeconds := Float64.sub totalEstimated (Time.Seconds elapsed) in
    let etaDuration := Int64.mul (Float64.to_int etaSeconds) Time.Second in
    now <- Now ;;
    let etaTime := Time.Add now etaDuration in
    print (LETA etaTime (formatDuration etaDuration))
  else ret tt.

(** Lines 141-162. *)
Definition progressBlock (d : PoolDecommissionInfo) (elapsed : Time.Duration) : M unit :=
  progress <- fdiv (Float64.of_int (bytesFreed d)) (Float64.of_int (initialUsed d)) ;;
  speed <- fdiv (Float64.of_int (bytesFreed d)) (Time.Seconds elapsed) ;;
  print (LProgress (Int64.to_uint64 (bytesFreed d)) (Int64.to_uint64 (initialUsed d))
           (Float64.mul progress (Float64.of_int 100))) ;;
  percent <- fdiv (Float64.mul (Float64.of_int 100) (Float64.of_int (usedNow d)))
                  (Float64.of_int (TotalSize d)) ;;
  print (LUsage (Int64.to_uint64 (usedNow d)) (Int64.to_uint64 (TotalSize d)) percent) ;;
  print (LSpeed (Float64.to_uint64 speed)) ;;
  etaBlock elapsed progress.

(** Whether the loop skips the pool (lines 116-123). *)
Definition skipped (pool : PoolStatus) : bool :=
  match Decommission pool with
  | None => true
  | Some d => Time.IsZero (StartTime d) || (Complete d || Failed d || Canceled d)
  end.

(** One iteration of [for _, pool := range pools], lines 116-166; the
    result is the new value of [hasDraining]. *)
Definition iteration (pool : PoolStatus) (hasDraining : bool) : M bool :=
  match Decommission pool with
  | None => ret hasDraining
  | Some d =>
      if Time.IsZero (StartTime d) then ret hasDraining
      else if Complete d || Failed d || Canceled d then ret hasDraining
      else
        print (LPool (Int64.add (ID pool) 1) (CmdLine pool)) ;;
        elapsed <- Since (StartTime d) ;;
        now <- Now ;;
        print (LStarted (StartTime d) now) ;;
        (if enoughSignal d elapsed then progressBlock d elapsed
         else print LStarting) ;;
        print LBlank ;;
        ret true
  end.

Fixpoint loop (pools : list PoolStatus) (hasDraining : bool) : M bool :=
  match pools with
  | [] => ret hasDraining
  | pool :: rest =>
      hasDraining' <- iteration pool hasDraining ;;
      loop rest hasDraining'
  end.

(** Lines 114-171 of [main], given the result of [ListPoolsStatus]. *)
Definition report (pools : list PoolStatus) : M unit :=
  hasDraining <- loop pools false ;;
  if negb hasDraining then print LNoPools else ret tt.

(** A world in which nothing has happened yet. *)
Definition initial (c : nat -> Time.Time) : World := mkWorld c 0 [] [].

(** The wall clock stopped at [now]. *)
Definition frozen (now : Time.Time) : nat -> Time.Time := fun _ => now.

(* ================================================================= *)
(** ** Observations of a run *)

(** The lines a computation adds to standard output. *)
Definition printed {A} (c : M A) (w : World) : list line :=
  skipn (List.length (stdout w)) (stdout (snd (c w))).

(** The divisors a computation adds to the record of divisions. *)
Definition divided {A} (c : M A) (w : World) : list float64 :=
  skipn (List.length (divisors w)) (divisors (snd (c w))).

(** The reading of the clock that [time.Since] takes in an iteration
    started in [w], and the elapsed time it computes. *)
Definition elapsedAt (w : World) (d : PoolDecommissionInfo) : Time.Duration :=
  Time.Sub (clock w (reads w)) (StartTime d).

Definition isETA (l : line) : bool :=
  match l with LETA _ _ => true | _ => false end.

Definition isProgressLine (l : line) : bool :=
  match l with
  | LProgress _ _ _ | LUsage _ _ _ | LSpeed _ | LETA _ _ => true
  | _ => false
  end.

(** *** Closed forms of what an iteration computes *)

Definition one : float64 := Float64.of_int 1.

(** The condition of line 154. *)
Definition showsETA (d : PoolDecommissionInfo) : bool :=
  Float64.gtb (progressOf d) zero && Float64.ltb (progressOf d) one.

(** [etaSeconds] and [etaDuration] of lines 155-157. *)
Definition etaSecondsOf (d : PoolDecommissionInfo) (elapsed : Time.Duration) : float64 :=
  Float64.sub (Float64.div (Time.Seconds elapsed) (progressOf d)) (Time.Seconds elapsed).

Definition etaDurationOf (d : PoolDecommissionInfo) (elapsed : Time.Duration) : Time.Duration :=
  Int64.mul (Float64.to_int (etaSecondsOf d elapsed)) Time.Second.

Definition etaLines (d : PoolDecommissionInfo) (elapsed : Time.Duration)
  (now : Time.Time) : list line :=
  if showsETA d then
    [LETA (Time.Add now (etaDurationOf d elapsed)) (formatDuration (etaDurationOf d elapsed))]
  else [].

Definition progressLines (d : PoolDecommissionInfo) (elapsed : Time.Duration)
  (now : Time.Time) : list line :=
  [ LProgress (Int64.to_uint64 (bytesFreed d)) (Int64.to_uint64 (initialUsed d))
      (Float64.mul (progressOf d) (Float64.of_int 100));
    LUsage (Int64.to_uint64 (usedNow d)) (Int64.to_uint64 (TotalSize d))
      (Float64.div (Float64.mul (Float64.of_int 100) (Float64.of_int (usedNow d)))
         (Float64.of_int (TotalSize d)));
    LSpeed (Float64.to_uint64
              (Float64.div (Float64.of_int (bytesFreed d)) (Time.Seconds elapsed))) ]
  ++ etaLines d elapsed now.

Definition progressDivisors (d : PoolDecommissionInfo) (elapsed : Time.Duration)
  : list float64 :=
  [ Float64.of_int (initialUsed d); Time.Seconds elapsed; Float64.of_int (TotalSize d) ]
  ++ (if showsETA d then [progressOf d] else []).

(** The lines of one draining pool, from the three readings of the clock
    (by [time.Since], for the "Started" line, for the ETA). *)
Definition poolLines (pool : PoolStatus) (d : PoolDecommissionInfo)
  (t1 t2 t3 : Time.Time) : list line :=
  [ LPool (Int64.add (ID pool) 1) (CmdLine pool); LStarted (StartTime d) t2 ]
  ++ (if enoughSignal d (Time.Sub t1 (StartTime d))
      then progressLines d (Time.Sub t1 (StartTime d)) t3
      else [LStarting])
  ++ [LBlank].

Definition poolDivisors (d : PoolDecommissionInfo) (t1 : Time.Time) : list float64 :=
  if enoughSignal d (Time.Sub t1 (StartTime d))
  then progressDivisors d (Time.Sub t1 (StartTime d))
  else [].

(** How many times a draining iteration reads the clock. *)
Definition poolReads (d : PoolDecommissionInfo) (t1 : Time.Time) : nat :=
  if enoughSignal d (Time.Sub t1 (StartTime d)) && showsETA d then 3%nat else 2%nat.


(* ================================================================= *)
(** ** The value of a [float64], and rounding as a relation *)

(** [2 ^ e] as a rational, for any integer [e]. *)
Definition pow2 (e : Z) : Q := ((2 # 1) ^ e)%Q.

(** The rational a finite [float64] stands for (0 for the others). *)
Definition F2Q (x : float64) : Q :=
  match x with
  | S754_finite s m e => (inject_Z (cond_Zopp s (Zpos m)) * pow2 e)%Q
  | _ => 0%Q
  end.

(** Where [y] lies in [[m, m+1)], as [SpecFloat] records it. *)
Definition Bracket (m : Z) (l : location) (y : Q) : Prop :=
  match l with
  | loc_Exact => (y == inject_Z m)%Q
  | loc_Inexact Lt => (inject_Z m < y /\ y < inject_Z m + (1 # 2))%Q
  | loc_Inexact Eq => (y == inject_Z m + (1 # 2))%Q
  | loc_Inexact Gt => (inject_Z m + (1 # 2) < y /\ y < inject_Z m + 1)%Q
  end.

Definition BracketR (mrs : shr_record) (y : Q) : Prop :=
  Bracket (shr_m mrs) (loc_of_shr_record mrs) y.

(** [x] written with a 53-bit integer part at exponent [e]. *)
Definition Canon (x : Q) (m : Z) (l : location) (e : Z) : Prop :=
  2 ^ 52 <= m < 2 ^ 53 /\ Bracket m l (x * pow2 (- e))%Q.

(** Renormalisation after rounding up to [2^53]. *)
Definition carry (m e : Z) : Z * Z :=
  if m =? 2 ^ 53 then (2 ^ 52, e + 1) else (m, e).

(** The float with sign [s] that a 53-bit bracket rounds to. *)
Definition rounded (s : bool) (m : Z) (l : location) (e : Z) : float64 :=
  S754_finite s (Z.to_pos (fst (carry (round_nearest_even m l) e)))
    (snd (carry (round_nearest_even m l) e)).

(** [f] is the positive real [x] rounded to nearest, ties to even, in
    the normal range of binary64. *)
Definition Rounds (x : Q) (f : float64) : Prop :=
  exists m l e, Canon x m l e /\ -1074 <= e <= 969 /\ f = rounded false m l e.

(** Positive normal numbers. *)
Definition normal (f : float64) : Prop :=
  exists m e, f = S754_finite false m e /\ 2 ^ 52 <= Zpos m < 2 ^ 53.

Definition expo (f : float64) : Z :=
  match f with S754_finite _ _ e => e | _ => 0 end.

(** Positive normal numbers whose exponent is at most [k] away from 0. *)
Definition normal_in (k : Z) (f : float64) : Prop :=
  normal f /\ - k <= expo f <= k.

(** The order of positive normal numbers, on mantissa and exponent. *)
Definition le_out (a b : Z * Z) : Prop :=
  snd a < snd b \/ (snd a = snd b /\ fst a <= fst b).

Definition loc_rank (l : location) : Z :=
  match l with
  | loc_Exact => 0
  | loc_Inexact Lt => 1
  | loc_Inexact Eq => 2
  | loc_Inexact Gt => 3
  end.

(** Zero or negative (of either kind), the values [x > 0] rejects. *)
Definition nonpos (f : float64) : Prop :=
  match f with
  | S754_zero _ => True
  | S754_finite s _ _ => s = true
  | S754_infinity s => s = true
  | S754_nan => False
  end.

(** The same float with another sign. *)
Definition with_sign (s : bool) (f : float64) : float64 :=
  match f with
  | S754_zero _ => S754_zero s
  | S754_infinity _ => S754_infinity s
  | S754_finite _ m e => S754_finite s m e
  | S754_nan => S754_nan
  end.

(** Rounding of a non-negative real: [0] is kept, with a positive sign. *)
Definition RNN (x : Q) (f : float64) : Prop :=
  ((x == 0)%Q /\ f = S754_zero false) \/ Rounds x f.

(** Positive zero, or a positive normal number of exponent within [k]. *)
Definition nn_in (k : Z) (f : float64) : Prop :=
  f = S754_zero false \/ normal_in k f.

(** The common shape of [Seconds], [Minutes] and [Hours]. *)
Definition unitsOf (unit : Z) (d : Time.Duration) : float64 :=
  Float64.add (Float64.of_int (Int64.quot d unit))
    (Float64.div (Float64.of_int (Int64.rem d unit)) (Float64.of_int unit)).

(** The normal number [n * 2^e], for [0 < n < 2^53]. *)
Definition dyadic (n e : Z) : float64 :=
  let k := 53 - Zdigits2 n in
  S754_finite false (Z.to_pos (n * 2 ^ k)) (e - k).

(** The compact rendering of a count of days, hours and minutes: the
    components that are zero are left out, and when all are zero the
    result is "< 1m". *)
Definition compact (days hours mins : Z) : string :=
  let parts :=
    (if days =? 0 then [] else [(sprintf_d days ++ "d")%string])
    ++ (if hours =? 0 then [] else [(sprintf_d hours ++ "h")%string])
    ++ (if mins =? 0 then [] else [(sprintf_d mins ++ "m")%string]) in
  match parts with
  | [] => "< 1m"%string
  | _ => String.concat " " parts
  end.


(* ================================================================= *)
(** ** The whole loop in closed form *)

(** A pool the loop does not skip. *)
Definition draining (pool : PoolStatus) : bool := negb (skipped pool).

(** The line of line 135. *)
Definition headerOf (pool : PoolStatus) : line :=
  LPool (Int64.add (ID pool) 1) (CmdLine pool).

Definition isHeader (l : line) : bool :=
  match l with LPool _ _ => true | _ => false end.

Definition isBlank (l : line) : bool :=
  match l with LBlank => true | _ => false end.

Definition isNoPools (l : line) : bool :=
  match l with LNoPools => true | _ => false end.

(** What one iteration prints, divides by and reads, when the clock
    [c] has been read [r] times before. *)
Definition linesOf (c : nat -> Time.Time) (r : nat) (pool : PoolStatus) : list line :=
  match Decommission pool with
  | Some d =>
      if skipped pool then []
      else poolLines pool d (c r) (c (S r)) (c (S (S r)))
  | None => []
  end.

Definition divisorsOf (c : nat -> Time.Time) (r : nat) (pool : PoolStatus)
  : list float64 :=
  match Decommission pool with
  | Some d => if skipped pool then [] else poolDivisors d (c r)
  | None => []
  end.

Definition readsAfter (c : nat -> Time.Time) (r : nat) (pool : PoolStatus) : nat :=
  match Decommission pool with
  | Some d => if skipped pool then r else (poolReads d (c r) + r)%nat
  | None => r
  end.

Fixpoint loopLines (c : nat -> Time.Time) (r : nat) (pools : list PoolStatus)
  : list line :=
  match pools with
  | [] => []
  | pool :: rest => linesOf c r pool ++ loopLines c (readsAfter c r pool) rest
  end.

Fixpoint loopDivisors (c : nat -> Time.Time) (r : nat) (pools : list PoolStatus)
  : list float64 :=
  match pools with
  | [] => []
  | pool :: rest => divisorsOf c r pool ++ loopDivisors c (readsAfter c r pool) rest
  end.

Fixpoint loopReads (c : nat -> Time.Time) (r : nat) (pools : list PoolStatus) : nat :=
  match pools with
  | [] => r
  | pool :: rest => loopReads c (readsAfter c r pool) rest
  end.

(* ================================================================= *)
(** ** The alias store and the start of [main] *)

Record aliasConfig : Type := mkAlias {
  URL       : string;
  AccessKey : string;
  SecretKey : string;
  API       : string;
  Path      : string
}.

(** [Aliases] is a Go map; it is only read, by key.  The bindings are
    kept as a list, a key bound to its first entry. *)
Record mcConfig : Type := mkConfig {
  Version : string;
  Aliases : list (string * aliasConfig)
}.

Fixpoint lookup {V : Type} (m : list (string * V)) (k : string) : option V :=
  match m with
  | [] => None
  | (k', v) :: m' => if String.eqb k' k then Some v else lookup m' k
  end.

(** An [error] value, by the text of [Error()]. *)
Definition error : Type := string.

Inductive result (A : Type) : Type :=
| Ok (a : A)
| Err (e : error).
Arguments Ok {A} a.
Arguments Err {A} e.

(** [*madmin.AdminClient], as far as [newAdminClient] sets it up. *)
Record Transport : Type := mkTransport {
  InsecureSkipVerify : bool            (* TLSClientConfig.InsecureSkipVerify *)
}.

Record AdminClient : Type := mkClient {
  endpoint        : string;
  accessKeyID     : string;
  secretAccessKey : string;
  secure          : bool;
  customTransport : option Transport   (* set by SetCustomTransport *)
}.

(** The operating system and the packages [main] calls. *)
Record System : Type := mkSystem {
  UserHomeDir : result string;                      (* os.UserHomeDir() *)
  ReadFile    : string -> result string;            (* os.ReadFile(name) *)
  Join        : string -> string -> string;         (* filepath.Join(a, b) *)
  Unmarshal   : string -> result mcConfig;          (* json.Unmarshal(data, &cfg) *)
  Quote       : string -> string;                   (* the verb %q *)
  ParseURL    : string -> result (string * string); (* url.Parse: Scheme, Host *)
  EqualFold   : string -> string -> bool;           (* strings.EqualFold *)
  NewClient   : string -> string -> string -> bool -> option error;
                                                    (* the error of madmin.New *)
  ListPoolsStatus : AdminClient -> result (list PoolStatus);
  Arg0        : string;                             (* os.Args[0] *)
  Defaults    : string                              (* flag.PrintDefaults() *)
}.

Section CommandLine.

Variable sys : System.

(** Lines 33-57. *)
Definition loadAlias (alias configDir : string) : result aliasConfig :=
  match (if String.eqb configDir "" then
           match UserHomeDir sys with
           | Err e => Err ("get home dir: " ++ e)
           | Ok homeDir => Ok (Join sys homeDir ".mc")
           end
         else Ok configDir) with
  | Err e => Err e
  | Ok configDir =>
      match ReadFile sys (Join sys configDir "config.json") with
      | Err e => Err ("read " ++ configDir ++ ": " ++ e)
      | Ok data =>
          match Unmarshal sys data with
          | Err e => Err ("parse config: " ++ e)
          | Ok cfg =>
              match lookup (Aliases cfg) alias with
              | None =>
                  Err ("alias " ++ Quote sys alias ++ " not found in " ++ configDir)
              | Some ac => Ok ac
              end
          end
      end
  end%string.

(** Lines 59-78. *)
Definition newAdminClient (ac : aliasConfig) : result AdminClient :=
  match ParseURL sys (URL ac) with
  | Err e => Err ("parse URL " ++ Quote sys (URL ac) ++ ": " ++ e)%string
  | Ok (scheme, host) =>
      let secure := EqualFold sys scheme "https" in
      match NewClient sys host (AccessKey ac) (SecretKey ac) secure with
      | Some e => Err e
      | None =>
          Ok (mkClient host (AccessKey ac) (SecretKey ac) secure
                (if secure then Some (mkTransport true) else None))
      end
  end.




End CommandLine.

Definition isProgress (l : line) : bool :=
  match l with LProgress _ _ _ => true | _ => false end.

(** A system for examples: one alias in [/home/u/.mc/config.json]. *)
Definition sampleAlias : aliasConfig :=
  mkAlias "https://minio.example:9000" "key" "secret" "s3v4" "auto".

Definition samplePools : list PoolStatus :=
  [ mkPool 0 "pool-a" None;
    mkPool 1 "pool-b"
      (Some (mkDecom 1000000000 0 1073741824 229638144 false false false)) ].

Definition sampleSystem : System :=
  mkSystem
    (Ok "/home/u"%string)
    (fun name => if String.eqb name "/home/u/.mc/config.json"
                 then Ok "config"%string else Err "no such file"%string)
    (fun a b => (a ++ "/" ++ b)%string)
    (fun data => Ok (mkConfig "10" [("myminio"%string, sampleAlias)]))
    (fun s => s)
    (fun u => if String.eqb u "https://minio.example:9000"
              then Ok ("https"%string, "minio.example:9000"%string)
              else Err "invalid URL"%string)
    String.eqb
    (fun _ _ _ _ => None)
    (fun _ => Ok samplePools)
    "decom-eta"
    "  -config-dir string".

(* ================================================================= *)
(** * Order on [float64] *)

Lemma SFcompare_antisym (a b : spec_float) :
  SFcompare b a = option_map CompOpp (SFcompare a b).
Proof.
  destruct a as [sa|sa| |sa ma ea], b as [sb|sb| |sb mb eb]; cbn;
    try (destruct sa); try (destruct sb); try reflexivity.
  - rewrite (Z.compare_antisym ea eb). destruct (ea ?= eb); cbn; try reflexivity.
    do 2 f_equal. symmetry. exact (Pos.compare_cont_antisym ma mb Eq).
  - rewrite (Z.compare_antisym ea eb). destruct (ea ?= eb); cbn; try reflexivity.
    f_equal. symmetry. exact (Pos.compare_cont_antisym ma mb Eq).
Qed.

Lemma leb_not_ltb (a b : float64) :
  Float64.leb a b = true -> Float64.ltb b a = false.
Proof.
  unfold Float64.leb, Float64.ltb, SFleb, SFltb.
  rewrite (SFcompare_antisym a b).
  destruct (SFcompare a b) as [[| |]|]; cbn; congruence.
Qed.


(* ================================================================= *)
(** * Powers of two *)

Lemma pow2_pos (e : Z) : (0 < pow2 e)%Q.
Proof. apply Qpower_0_lt. reflexivity. Qed.

Lemma pow2_add (a b : Z) : (pow2 (a + b) == pow2 a * pow2 b)%Q.
Proof. apply Qpower_plus. discriminate. Qed.

Lemma pow2_0 : (pow2 0 == 1)%Q.
Proof. reflexivity. Qed.

Lemma pow2_1 : (pow2 1 == 2)%Q.
Proof. reflexivity. Qed.

Lemma pow2_m1 : (pow2 (-1) == 1 # 2)%Q.
Proof. reflexivity. Qed.

Lemma pow2_succ (e : Z) : (pow2 (e + 1) == 2 * pow2 e)%Q.
Proof. rewrite pow2_add, pow2_1. ring. Qed.

Lemma pow2_cancel (e : Z) : (pow2 e * pow2 (- e) == 1)%Q.
Proof. rewrite <- pow2_add. replace (e + - e) with 0 by lia. reflexivity. Qed.

Lemma pow2_le (a b : Z) : a <= b -> (pow2 a <= pow2 b)%Q.
Proof. intros H. apply Qpower_le_compat_l; [exact H | discriminate]. Qed.

Lemma pow2_Z (k : Z) : 0 <= k -> (pow2 k == inject_Z (2 ^ k))%Q.
Proof. intros H. unfold pow2. now rewrite Zpower_Qpower. Qed.

(* ================================================================= *)
(** * Shifting right with a round bit and a sticky bit *)

Lemma Bracket_ext (m : Z) (l : location) (y y' : Q) :
  (y == y')%Q -> Bracket m l y -> Bracket m l y'.
Proof.
  intros E. destruct l as [|[| |]]; cbn; lra.
Qed.

Lemma Bracket_bounds (m : Z) (l : location) (y : Q) :
  Bracket m l y -> (inject_Z m <= y /\ y < inject_Z m + 1)%Q.
Proof.
  destruct l as [|[| |]]; cbn; lra.
Qed.

Lemma Bracket_record_of_loc (m : Z) (l : location) (y : Q) :
  Bracket m l y -> BracketR (shr_record_of_loc m l) y.
Proof.
  unfold BracketR. destruct l as [|[| |]]; cbn; auto.
Qed.

Lemma inject_Z_xO (p : positive) : (inject_Z (Zpos p~0) == 2 * inject_Z (Zpos p))%Q.
Proof. rewrite Pos2Z.inj_xO, inject_Z_mult. reflexivity. Qed.

Lemma inject_Z_xI (p : positive) : (inject_Z (Zpos p~1) == 2 * inject_Z (Zpos p) + 1)%Q.
Proof. rewrite Pos2Z.inj_xI, inject_Z_plus, inject_Z_mult. reflexivity. Qed.

Lemma shr_1_spec (mrs : shr_record) (y : Q) :
  0 <= shr_m mrs -> BracketR mrs y ->
  BracketR (shr_1 mrs) (y * (1 # 2))%Q /\ shr_m (shr_1 mrs) = shr_m mrs / 2.
Proof.
  destruct mrs as [m r s]. unfold BracketR. cbn [shr_m].
  intros Hm. destruct m as [|p|p]; [| |lia].
  - change (inject_Z 0) with 0%Q.
    destruct r, s; cbn; change (inject_Z 0) with 0%Q; intros H; split;
      try reflexivity; lra.
  - destruct p as [p|p|]; intros H.
    + split.
      * pose proof (inject_Z_xI p) as E.
        destruct r, s; cbn in *; lra.
      * cbn [shr_1 shr_m]. rewrite Pos2Z.inj_xI.
        apply Z.div_unique with (r := 1); lia.
    + split.
      * pose proof (inject_Z_xO p) as E.
        destruct r, s; cbn in *; lra.
      * cbn [shr_1 shr_m]. rewrite Pos2Z.inj_xO.
        apply Z.div_unique with (r := 0); lia.
    + split.
      * destruct r, s; cbn in *;
          change (inject_Z 0) with 0%Q; change (inject_Z 1) with 1%Q in H; lra.
      * reflexivity.
Qed.

Lemma shr_m_nonneg_1 (mrs : shr_record) : 0 <= shr_m mrs -> 0 <= shr_m (shr_1 mrs).
Proof.
  destruct mrs as [m r s]. cbn. destruct m as [|[p|p|]|p]; cbn; lia.
Qed.

Lemma shr_iter_spec (p : positive) : forall (mrs : shr_record) (y : Q),
  0 <= shr_m mrs -> BracketR mrs y ->
  BracketR (SpecFloat.iter_pos shr_1 p mrs) (y * pow2 (- Zpos p))%Q
  /\ shr_m (SpecFloat.iter_pos shr_1 p mrs) = shr_m mrs / 2 ^ Zpos p.
Proof.
  induction p as [p IH|p IH|]; intros mrs y Hm Hy; cbn [SpecFloat.iter_pos].
  - destruct (shr_1_spec mrs y Hm Hy) as [B1 M1].
    assert (Hm1 : 0 <= shr_m (shr_1 mrs)) by now apply shr_m_nonneg_1.
    destruct (IH _ _ Hm1 B1) as [B2 M2].
    assert (Hm2 : 0 <= shr_m (SpecFloat.iter_pos shr_1 p (shr_1 mrs))).
    { rewrite M2. apply Z.div_pos; [lia | apply Z.pow_pos_nonneg; lia]. }
    destruct (IH _ _ Hm2 B2) as [B3 M3]. split.
    + eapply Bracket_ext; [|exact B3].
      replace (- Zpos p~1) with (-1 + (- Zpos p + - Zpos p)) by lia.
      rewrite !pow2_add, pow2_m1. ring.
    + rewrite M3, M2, M1. rewrite !Z.div_div by (try apply Z.pow_pos_nonneg; lia).
      f_equal. replace (Zpos p~1) with (1 + Zpos p + Zpos p) by lia.
      rewrite !Z.pow_add_r by lia. change (2 ^ 1) with 2. ring.
  - destruct (IH _ _ Hm Hy) as [B2 M2].
    assert (Hm2 : 0 <= shr_m (SpecFloat.iter_pos shr_1 p mrs)).
    { rewrite M2. apply Z.div_pos; [lia | apply Z.pow_pos_nonneg; lia]. }
    destruct (IH _ _ Hm2 B2) as [B3 M3]. split.
    + eapply Bracket_ext; [|exact B3].
      replace (- Zpos p~0) with (- Zpos p + - Zpos p) by lia.
      rewrite !pow2_add. ring.
    + rewrite M3, M2. rewrite !Z.div_div by (try apply Z.pow_pos_nonneg; lia).
      f_equal. replace (Zpos p~0) with (Zpos p + Zpos p) by lia.
      rewrite !Z.pow_add_r by lia. ring.
  - destruct (shr_1_spec mrs y Hm Hy) as [B1 M1]. split.
    + eapply Bracket_ext; [|exact B1]. apply Qmult_comp; reflexivity.
    + rewrite M1. reflexivity.
Qed.

Lemma shr_iter_nonneg (p : positive) (mrs : shr_record) :
  0 <= shr_m mrs -> 0 <= shr_m (SpecFloat.iter_pos shr_1 p mrs).
Proof.
  revert mrs. induction p as [p IH|p IH|]; intros mrs H; cbn [SpecFloat.iter_pos].
  - apply IH, IH. now apply shr_m_nonneg_1.
  - apply IH, IH, H.
  - now apply shr_m_nonneg_1.
Qed.

(* ================================================================= *)
(** * Number of binary digits *)

Lemma digits2_size (p : positive) : digits2_pos p = Pos.size p.
Proof. induction p; cbn; congruence. Qed.

Lemma digits2_bounds (p : positive) :
  2 ^ (Zpos (digits2_pos p) - 1) <= Zpos p < 2 ^ Zpos (digits2_pos p).
Proof.
  rewrite digits2_size. split.
  - pose proof (Pos.size_le p) as H. apply Pos2Z.pos_le_pos in H.
    rewrite Pos2Z.inj_pow in H.
    replace (Zpos (Pos.size p)) with (1 + (Zpos (Pos.size p) - 1)) in H by lia.
    rewrite Z.pow_add_r in H by lia. change (2 ^ 1) with 2 in H. lia.
  - pose proof (Pos.size_gt p) as H. apply Pos2Z.pos_lt_pos in H.
    now rewrite Pos2Z.inj_pow in H.
Qed.

Lemma digits2_unique (p : positive) (d : Z) :
  2 ^ (d - 1) <= Zpos p < 2 ^ d -> Zpos (digits2_pos p) = d.
Proof.
  intros [L U]. pose proof (digits2_bounds p) as [L' U'].
  set (s := Zpos (digits2_pos p)) in *.
  assert (0 < d).
  { destruct (Z.ltb_spec 0 d); [assumption|].
    assert (2 ^ d <= 2 ^ 0) by (destruct (Z.eq_dec d 0) as [->|];
      [lia | rewrite Z.pow_neg_r by lia; cbn; lia]).
    change (2 ^ 0) with 1 in *. lia. }
  destruct (Z.lt_trichotomy s d) as [C|[C|C]]; [|exact C|].
  - assert (2 ^ s <= 2 ^ (d - 1)) by (apply Z.pow_le_mono_r; lia). lia.
  - assert (2 ^ d <= 2 ^ (s - 1)) by (apply Z.pow_le_mono_r; lia). lia.
Qed.

(* ================================================================= *)
(** * [binary_round_aux] in the normal range *)

Lemma fexp_normal (k : Z) : -1074 <= k - 53 -> fexp 53 1024 k = k - 53.
Proof. unfold fexp, emin. lia. Qed.

Lemma shr_fexp_canon (p : positive) (ex : Z) (lx : location) (y : Q) :
  53 <= Zpos (digits2_pos p) ->
  -1074 <= Zpos (digits2_pos p) + ex - 53 ->
  Bracket (Zpos p) lx y ->
  exists mrs,
    shr_fexp 53 1024 (Zpos p) ex lx = (mrs, Zpos (digits2_pos p) + ex - 53)
    /\ 2 ^ 52 <= shr_m mrs < 2 ^ 53
    /\ BracketR mrs (y * pow2 (- (Zpos (digits2_pos p) - 53)))%Q.
Proof.
  intros Hd Hr Hy. pose proof (digits2_bounds p) as [L U].
  set (d := Zpos (digits2_pos p)) in *.
  unfold shr_fexp. cbn [Zdigits2]. fold d.
  rewrite (fexp_normal (d + ex)) by lia.
  replace (d + ex - 53 - ex) with (d - 53) by lia.
  apply Bracket_record_of_loc in Hy.
  assert (Hm : shr_m (shr_record_of_loc (Zpos p) lx) = Zpos p)
    by (destruct lx as [|[| |]]; reflexivity).
  unfold shr. destruct (d - 53) as [|q|q] eqn:E; [| |lia].
  - exists (shr_record_of_loc (Zpos p) lx). split; [f_equal; lia|]. split.
    + rewrite Hm. replace d with 53 in * by lia. change (53 - 1) with 52 in L. lia.
    + eapply Bracket_ext; [|exact Hy]. change (- 0) with 0. rewrite pow2_0. ring.
  - assert (Hm0 : 0 <= shr_m (shr_record_of_loc (Zpos p) lx)) by (rewrite Hm; lia).
    destruct (shr_iter_spec q _ _ Hm0 Hy) as [B M].
    eexists. split; [f_equal; lia|]. split; [|exact B].
    rewrite M, Hm.
    assert (P : 0 < 2 ^ Zpos q) by (apply Z.pow_pos_nonneg; lia).
    replace d with (Zpos q + 53) in * by lia.
    replace (Zpos q + 53 - 1) with (Zpos q + 52) in L by lia.
    rewrite Z.pow_add_r in L, U by lia. split.
    + apply Z.div_le_lower_bound; lia.
    + apply Z.div_lt_upper_bound; lia.
Qed.

Lemma rne_range (m : Z) (l : location) :
  m <= round_nearest_even m l <= m + 1.
Proof.
  destruct l as [|[| |]]; cbn; try lia. destruct (Z.even m); lia.
Qed.

Lemma shr_fexp_exact53 (m e : Z) :
  2 ^ 52 <= m < 2 ^ 53 -> -1074 <= e ->
  shr_fexp 53 1024 m e loc_Exact = (Build_shr_record m false false, e).
Proof.
  intros Hm He. destruct m as [|p|p]; try lia.
  unfold shr_fexp. cbn [Zdigits2].
  rewrite (digits2_unique p 53) by (change (53 - 1) with 52; lia).
  rewrite fexp_normal by lia. replace (53 + e - 53 - e) with 0 by lia.
  reflexivity.
Qed.

Lemma shr_fexp_carry (e : Z) :
  -1074 <= e ->
  shr_fexp 53 1024 (2 ^ 53) e loc_Exact = (Build_shr_record (2 ^ 52) false false, e + 1).
Proof.
  intros He. unfold shr_fexp.
  replace (Zdigits2 (2 ^ 53)) with 54 by reflexivity.
  rewrite fexp_normal by lia. replace (54 + e - 53 - e) with 1 by lia.
  reflexivity.
Qed.

Lemma binary_round_aux_rounds (s : bool) (p : positive) (ex : Z) (lx : location) (x : Q) :
  53 <= Zpos (digits2_pos p) ->
  -1074 <= Zpos (digits2_pos p) + ex - 53 <= 969 ->
  Bracket (Zpos p) lx (x * pow2 (- ex))%Q ->
  exists m l,
    Canon x m l (Zpos (digits2_pos p) + ex - 53)
    /\ binary_round_aux 53 1024 s (Zpos p) ex lx
       = rounded s m l (Zpos (digits2_pos p) + ex - 53).
Proof.
  intros Hd [Hlo Hhi] Hy.
  destruct (shr_fexp_canon p ex lx _ Hd Hlo Hy) as (mrs & E & Hm & B).
  set (e' := Zpos (digits2_pos p) + ex - 53) in *.
  exists (shr_m mrs), (loc_of_shr_record mrs). split.
  - split; [exact Hm|]. eapply Bracket_ext; [|exact B].
    unfold e'. replace (- (Zpos (digits2_pos p) + ex - 53))
      with (- ex + - (Zpos (digits2_pos p) - 53)) by lia.
    rewrite pow2_add. ring.
  - unfold binary_round_aux. rewrite E.
    pose proof (rne_range (shr_m mrs) (loc_of_shr_record mrs)) as R.
    unfold rounded, carry.
    set (m2 := round_nearest_even (shr_m mrs) (loc_of_shr_record mrs)) in *.
    destruct (Z.eqb_spec m2 (2 ^ 53)) as [C|C].
    + rewrite C, shr_fexp_carry by lia. cbn [shr_m fst snd].
      change (2 ^ 52) with (Zpos (Z.to_pos (2 ^ 52))) at 1.
      cbv iota beta.
      destruct (Z.leb_spec (e' + 1) (1024 - 53)); [reflexivity | lia].
    + rewrite shr_fexp_exact53 by lia. cbn [shr_m fst snd].
      destruct m2 as [|q|q]; try lia.
      destruct (Z.leb_spec e' (1024 - 53)); [reflexivity | lia].
Qed.

(* ================================================================= *)
(** * Rounding is monotone *)

Lemma inject_Z_lt_inv (a b : Z) : (inject_Z a < inject_Z b)%Q -> a < b.
Proof. intros H. rewrite Zlt_Qlt. exact H. Qed.

Lemma inject_Z_le_inv (a b : Z) : (inject_Z a <= inject_Z b)%Q -> a <= b.
Proof. intros H. rewrite Zle_Qle. exact H. Qed.

Lemma unscale (x y : Q) (e : Z) : (y == x * pow2 (- e))%Q -> (x == y * pow2 e)%Q.
Proof.
  intros H. rewrite H. rewrite <- Qmult_assoc, (Qmult_comm (pow2 (- e))), pow2_cancel.
  ring.
Qed.

Lemma Canon_bounds (x : Q) (m : Z) (l : location) (e : Z) :
  Canon x m l e ->
  (inject_Z m * pow2 e <= x /\ x < (inject_Z m + 1) * pow2 e)%Q.
Proof.
  intros [_ B]. apply Bracket_bounds in B. destruct B as [L U].
  pose proof (pow2_pos e) as P.
  pose proof (unscale x _ e (Qeq_refl _)) as E.
  split.
  - rewrite E. apply Qmult_le_compat_r; [exact L | lra].
  - rewrite E at 1. apply Qmult_lt_compat_r; [exact P | exact U].
Qed.

Lemma Canon_pos (x : Q) (m : Z) (l : location) (e : Z) :
  Canon x m l e -> (0 < x)%Q.
Proof.
  intros C. pose proof (Canon_bounds _ _ _ _ C) as [L _]. destruct C as [[Hm _] _].
  pose proof (pow2_pos e) as P.
  assert (0 < inject_Z m)%Q.
  { change 0%Q with (inject_Z 0). rewrite <- Zlt_Qlt. lia. }
  assert (0 < inject_Z m * pow2 e)%Q by (apply Qmult_lt_0_compat; assumption).
  lra.
Qed.

Lemma Canon_expo_le (x1 x2 : Q) (m1 m2 : Z) (l1 l2 : location) (e1 e2 : Z) :
  Canon x1 m1 l1 e1 -> Canon x2 m2 l2 e2 -> (x1 <= x2)%Q -> e1 <= e2.
Proof.
  intros C1 C2 Hx.
  destruct (Z.le_gt_cases e1 e2) as [|G]; [assumption|exfalso].
  pose proof (Canon_bounds _ _ _ _ C1) as [L1 _].
  pose proof (Canon_bounds _ _ _ _ C2) as [_ U2].
  destruct C1 as [[Hm1 _] _]. destruct C2 as [[_ Hm2] _].
  pose proof (pow2_pos e2) as P2.
  assert (P : (2 * pow2 e2 <= pow2 e1)%Q).
  { rewrite <- pow2_succ. apply pow2_le. lia. }
  assert (A1 : (inject_Z (2 ^ 52) <= inject_Z m1)%Q) by (rewrite <- Zle_Qle; lia).
  assert (A2 : (inject_Z m2 + 1 <= 2 * inject_Z (2 ^ 52))%Q).
  { change 1%Q with (inject_Z 1). change 2%Q with (inject_Z 2).
    rewrite <- inject_Z_plus, <- inject_Z_mult, <- Zle_Qle.
    change (2 * 2 ^ 52) with (2 ^ 53). lia. }
  assert (A0 : (0 < inject_Z (2 ^ 52))%Q) by reflexivity.
  set (A := inject_Z (2 ^ 52)) in *.
  assert (B1 : (A * pow2 e1 <= inject_Z m1 * pow2 e1)%Q).
  { apply Qmult_le_compat_r; [exact A1 | pose proof (pow2_pos e1); lra]. }
  assert (B2 : ((inject_Z m2 + 1) * pow2 e2 <= 2 * A * pow2 e2)%Q).
  { apply Qmult_le_compat_r; [exact A2 | lra]. }
  assert (B3 : (A * (2 * pow2 e2) <= A * pow2 e1)%Q).
  { rewrite !(Qmult_comm A). apply Qmult_le_compat_r; [exact P | lra]. }
  lra.
Qed.

Lemma Canon_mono (x1 x2 : Q) (m1 m2 : Z) (l1 l2 : location) (e1 e2 : Z) :
  Canon x1 m1 l1 e1 -> Canon x2 m2 l2 e2 -> (x1 <= x2)%Q ->
  e1 < e2 \/ (e1 = e2 /\ (m1 < m2 \/ (m1 = m2 /\ loc_rank l1 <= loc_rank l2))).
Proof.
  intros C1 C2 Hx.
  pose proof (Canon_expo_le _ _ _ _ _ _ _ _ C1 C2 Hx) as He.
  destruct (Z.eq_dec e1 e2) as [->|]; [right; split; [reflexivity|] | left; lia].
  destruct C1 as [_ B1]. destruct C2 as [_ B2].
  assert (Hy : (x1 * pow2 (- e2) <= x2 * pow2 (- e2))%Q).
  { apply Qmult_le_compat_r; [exact Hx | pose proof (pow2_pos (- e2)); lra]. }
  set (y1 := (x1 * pow2 (- e2))%Q) in *. set (y2 := (x2 * pow2 (- e2))%Q) in *.
  pose proof (Bracket_bounds _ _ _ B1) as [L1 U1].
  pose proof (Bracket_bounds _ _ _ B2) as [L2 U2].
  assert (m1 < m2 + 1).
  { apply inject_Z_lt_inv. rewrite inject_Z_plus. change (inject_Z 1) with 1%Q. lra. }
  destruct (Z.eq_dec m1 m2) as [->|]; [right; split; [reflexivity|] | left; lia].
  destruct l1 as [|[| |]], l2 as [|[| |]]; cbn in *; try lia; lra.
Qed.

Lemma rne_mono (m1 m2 : Z) (l1 l2 : location) :
  m1 < m2 \/ (m1 = m2 /\ loc_rank l1 <= loc_rank l2) ->
  round_nearest_even m1 l1 <= round_nearest_even m2 l2.
Proof.
  intros [H|[-> H]].
  - pose proof (rne_range m1 l1). pose proof (rne_range m2 l2). lia.
  - destruct l1 as [|[| |]], l2 as [|[| |]]; cbn in *; try lia;
      destruct (Z.even m2); lia.
Qed.

Lemma carry_range (m e : Z) :
  2 ^ 52 <= m <= 2 ^ 53 ->
  2 ^ 52 <= fst (carry m e) < 2 ^ 53 /\ e <= snd (carry m e) <= e + 1.
Proof.
  intros H. unfold carry. destruct (Z.eqb_spec m (2 ^ 53)); cbn [fst snd]; lia.
Qed.

Lemma carry_mono (a b e1 e2 : Z) :
  2 ^ 52 <= a <= 2 ^ 53 -> 2 ^ 52 <= b <= 2 ^ 53 ->
  e1 < e2 \/ (e1 = e2 /\ a <= b) ->
  le_out (carry a e1) (carry b e2).
Proof.
  intros Ha Hb H. unfold le_out, carry.
  destruct (Z.eqb_spec a (2 ^ 53)), (Z.eqb_spec b (2 ^ 53)); cbn [fst snd]; lia.
Qed.

Lemma rounded_normal (m : Z) (l : location) (e : Z) :
  2 ^ 52 <= m < 2 ^ 53 ->
  normal (rounded false m l e) /\ e <= expo (rounded false m l e) <= e + 1.
Proof.
  intros Hm. pose proof (rne_range m l) as R.
  assert (H : 2 ^ 52 <= round_nearest_even m l <= 2 ^ 53) by lia.
  destruct (carry_range _ e H) as [Hf He]. unfold rounded. split.
  - eexists _, _. split; [reflexivity|]. rewrite Z2Pos.id by lia. exact Hf.
  - exact He.
Qed.

Lemma SFleb_finite (m1 m2 : positive) (e1 e2 : Z) :
  SFleb (S754_finite false m1 e1) (S754_finite false m2 e2) = true
  <-> le_out (Zpos m1, e1) (Zpos m2, e2).
Proof.
  unfold SFleb, SFcompare, le_out. cbn [fst snd].
  change (PosDef.Pos.compare_cont Eq m1 m2) with (Pos.compare m1 m2).
  destruct (Z.compare_spec e1 e2) as [E|E|E].
  - destruct (Pos.compare_spec m1 m2) as [F|F|F]; split; intros H;
      try discriminate; try reflexivity; try (right; split; [assumption | lia]).
    destruct H as [H|[_ H]]; lia.
  - split; [intros _; left; exact E | reflexivity].
  - split; [discriminate | lia].
Qed.

Lemma SFltb_finite (m1 m2 : positive) (e1 e2 : Z) :
  SFltb (S754_finite false m1 e1) (S754_finite false m2 e2) = true
  <-> e1 < e2 \/ (e1 = e2 /\ Zpos m1 < Zpos m2).
Proof.
  unfold SFltb, SFcompare.
  change (PosDef.Pos.compare_cont Eq m1 m2) with (Pos.compare m1 m2).
  destruct (Z.compare_spec e1 e2) as [E|E|E].
  - destruct (Pos.compare_spec m1 m2) as [F|F|F]; split; intros H;
      try discriminate; try reflexivity; try (right; split; [assumption | lia]);
      destruct H as [H|[_ H]]; lia.
  - split; [intros _; left; exact E | reflexivity].
  - split; [discriminate | lia].
Qed.

Lemma rounded_leb (m1 m2 : Z) (l1 l2 : location) (e1 e2 : Z) :
  2 ^ 52 <= m1 < 2 ^ 53 -> 2 ^ 52 <= m2 < 2 ^ 53 ->
  e1 < e2 \/ (e1 = e2 /\ (m1 < m2 \/ (m1 = m2 /\ loc_rank l1 <= loc_rank l2))) ->
  SFleb (rounded false m1 l1 e1) (rounded false m2 l2 e2) = true.
Proof.
  intros H1 H2 H. unfold rounded. apply SFleb_finite.
  pose proof (rne_range m1 l1) as R1. pose proof (rne_range m2 l2) as R2.
  assert (A : 2 ^ 52 <= round_nearest_even m1 l1 <= 2 ^ 53) by lia.
  assert (B : 2 ^ 52 <= round_nearest_even m2 l2 <= 2 ^ 53) by lia.
  destruct (carry_range _ e1 A) as [Fa _]. destruct (carry_range _ e2 B) as [Fb _].
  assert (L : le_out (carry (round_nearest_even m1 l1) e1)
                (carry (round_nearest_even m2 l2) e2)).
  { apply carry_mono; [exact A | exact B |].
    destruct H as [H|[E H]]; [left; exact H | right; split; [exact E|]].
    now apply rne_mono. }
  unfold le_out in *. cbn [fst snd]. rewrite !Z2Pos.id by lia. exact L.
Qed.

Lemma Rounds_mono (x1 x2 : Q) (f1 f2 : float64) :
  Rounds x1 f1 -> Rounds x2 f2 -> (x1 <= x2)%Q -> SFleb f1 f2 = true.
Proof.
  intros (m1 & l1 & e1 & C1 & _ & ->) (m2 & l2 & e2 & C2 & _ & ->) Hx.
  apply rounded_leb; [apply C1 | apply C2 |].
  exact (Canon_mono _ _ _ _ _ _ _ _ C1 C2 Hx).
Qed.

Lemma Rounds_normal (x : Q) (f : float64) :
  Rounds x f -> normal f /\ -1074 <= expo f <= 970.
Proof.
  intros (m & l & e & [Hm _] & He & ->).
  destruct (rounded_normal m l e Hm) as [N E]. split; [exact N | lia].
Qed.

Lemma Rounds_pos (x : Q) (f : float64) : Rounds x f -> (0 < x)%Q.
Proof. intros (m & l & e & C & _). exact (Canon_pos _ _ _ _ C). Qed.

Lemma Rounds_ext (x x' : Q) (f : float64) :
  (x == x')%Q -> Rounds x f -> Rounds x' f.
Proof.
  intros E (m & l & e & [Hm B] & He & ->). exists m, l, e. repeat split; try lia.
  eapply Bracket_ext; [|exact B]. now rewrite E.
Qed.

(* ================================================================= *)
(** * Values of normal numbers *)

Lemma F2Q_finite (m : positive) (e : Z) :
  F2Q (S754_finite false m e) = (inject_Z (Zpos m) * pow2 e)%Q.
Proof. reflexivity. Qed.

Lemma inject_Z_pow52 (m : Z) :
  2 ^ 52 <= m < 2 ^ 53 ->
  (inject_Z (2 ^ 52) <= inject_Z m /\ inject_Z m + 1 <= 2 * inject_Z (2 ^ 52))%Q.
Proof.
  intros H. split.
  - rewrite <- Zle_Qle. lia.
  - change 1%Q with (inject_Z 1). change 2%Q with (inject_Z 2).
    rewrite <- inject_Z_plus, <- inject_Z_mult, <- Zle_Qle.
    change (2 * 2 ^ 52) with (2 ^ 53). lia.
Qed.

Lemma le_out_value (m1 m2 e1 e2 : Z) :
  2 ^ 52 <= m1 < 2 ^ 53 -> 2 ^ 52 <= m2 < 2 ^ 53 ->
  le_out (m1, e1) (m2, e2) ->
  (inject_Z m1 * pow2 e1 <= inject_Z m2 * pow2 e2)%Q.
Proof.
  intros H1 H2 [L|[E L]]; cbn [fst snd] in *.
  - pose proof (inject_Z_pow52 _ H1) as [_ U1].
    pose proof (inject_Z_pow52 _ H2) as [L2 _].
    pose proof (pow2_pos e1) as P1. pose proof (pow2_pos e2) as P2.
    assert (P : (2 * pow2 e1 <= pow2 e2)%Q).
    { rewrite <- pow2_succ. apply pow2_le. lia. }
    set (A := inject_Z (2 ^ 52)) in *.
    assert (A0 : (0 < A)%Q) by reflexivity.
    assert (B1 : (inject_Z m1 * pow2 e1 <= 2 * A * pow2 e1)%Q).
    { apply Qmult_le_compat_r; lra. }
    assert (B2 : (A * pow2 e2 <= inject_Z m2 * pow2 e2)%Q).
    { apply Qmult_le_compat_r; lra. }
    assert (B3 : (A * (2 * pow2 e1) <= A * pow2 e2)%Q).
    { rewrite !(Qmult_comm A). apply Qmult_le_compat_r; lra. }
    lra.
  - subst e2. apply Qmult_le_compat_r.
    + rewrite <- Zle_Qle. exact L.
    + pose proof (pow2_pos e1). lra.
Qed.

Lemma lt_out_value (m1 m2 e1 e2 : Z) :
  2 ^ 52 <= m1 < 2 ^ 53 -> 2 ^ 52 <= m2 < 2 ^ 53 ->
  e1 < e2 \/ (e1 = e2 /\ m1 < m2) ->
  (inject_Z m1 * pow2 e1 < inject_Z m2 * pow2 e2)%Q.
Proof.
  intros H1 H2 [L|[E L]].
  - pose proof (inject_Z_pow52 _ H1) as [_ U1].
    pose proof (inject_Z_pow52 _ H2) as [L2 _].
    pose proof (pow2_pos e1) as P1. pose proof (pow2_pos e2) as P2.
    assert (P : (2 * pow2 e1 <= pow2 e2)%Q).
    { rewrite <- pow2_succ. apply pow2_le. lia. }
    set (A := inject_Z (2 ^ 52)) in *.
    assert (A0 : (0 < A)%Q) by reflexivity.
    assert (B1 : (inject_Z m1 * pow2 e1 < 2 * A * pow2 e1)%Q).
    { apply Qmult_lt_compat_r; lra. }
    assert (B2 : (A * pow2 e2 <= inject_Z m2 * pow2 e2)%Q).
    { apply Qmult_le_compat_r; lra. }
    assert (B3 : (A * (2 * pow2 e1) <= A * pow2 e2)%Q).
    { rewrite !(Qmult_comm A). apply Qmult_le_compat_r; lra. }
    lra.
  - subst e2. apply Qmult_lt_compat_r.
    + apply pow2_pos.
    + rewrite <- Zlt_Qlt. exact L.
Qed.

Lemma normal_leb_value (f g : float64) :
  normal f -> normal g -> (SFleb f g = true <-> (F2Q f <= F2Q g)%Q).
Proof.
  intros (m1 & e1 & -> & H1) (m2 & e2 & -> & H2). rewrite SFleb_finite, !F2Q_finite.
  split.
  - now apply le_out_value.
  - intros V. unfold le_out. cbn [fst snd].
    destruct (Z.lt_trichotomy e1 e2) as [C|[C|C]]; [left; exact C | |].
    + right. split; [exact C|]. destruct (Z.le_gt_cases (Zpos m1) (Zpos m2)); [assumption|].
      assert (inject_Z (Zpos m2) * pow2 e2 < inject_Z (Zpos m1) * pow2 e1)%Q
        by (apply lt_out_value; [assumption | assumption | right; split; [symmetry; exact C | lia]]).
      lra.
    + assert (inject_Z (Zpos m2) * pow2 e2 < inject_Z (Zpos m1) * pow2 e1)%Q
        by (apply lt_out_value; [assumption | assumption | left; lia]).
      lra.
Qed.

Lemma normal_ltb_value (f g : float64) :
  normal f -> normal g -> (SFltb f g = true <-> (F2Q f < F2Q g)%Q).
Proof.
  intros (m1 & e1 & -> & H1) (m2 & e2 & -> & H2). rewrite SFltb_finite, !F2Q_finite.
  split.
  - now apply lt_out_value.
  - intros V.
    destruct (Z.lt_trichotomy e1 e2) as [C|[C|C]]; [left; exact C | |].
    + right. split; [exact C|]. destruct (Z.le_gt_cases (Zpos m2) (Zpos m1)); [|assumption].
      assert (inject_Z (Zpos m2) * pow2 e2 <= inject_Z (Zpos m1) * pow2 e1)%Q
        by (apply le_out_value; [assumption | assumption | right; cbn; split; [symmetry; exact C | lia]]).
      lra.
    + assert (inject_Z (Zpos m2) * pow2 e2 < inject_Z (Zpos m1) * pow2 e1)%Q
        by (apply lt_out_value; [assumption | assumption | left; lia]).
      lra.
Qed.

Lemma normal_pos (f : float64) : normal f -> (0 < F2Q f)%Q.
Proof.
  intros (m & e & -> & H). rewrite F2Q_finite.
  apply Qmult_lt_0_compat; [reflexivity | apply pow2_pos].
Qed.

Lemma normal_zero_ltb (f : float64) : normal f -> SFltb (S754_zero false) f = true.
Proof. intros (m & e & -> & H). reflexivity. Qed.

(** A normal number is its own rounding. *)
Lemma Rounds_exact (f : float64) :
  normal f -> -1074 <= expo f <= 969 -> Rounds (F2Q f) f.
Proof.
  intros (m & e & -> & H) He. cbn [expo] in He. exists (Zpos m), loc_Exact, e.
  split; [|split; [exact He|]].
  - split; [exact H|]. cbn [Bracket]. rewrite F2Q_finite.
    rewrite <- Qmult_assoc, pow2_cancel. ring.
  - unfold rounded, carry. cbn [round_nearest_even].
    destruct (Z.eqb_spec (Zpos m) (2 ^ 53)); [lia | reflexivity].
Qed.

(** Rounding is between any two normal numbers that enclose the real. *)
Lemma Rounds_lower (x : Q) (f g : float64) :
  Rounds x f -> normal g -> -1074 <= expo g <= 969 -> (F2Q g <= x)%Q ->
  SFleb g f = true /\ (F2Q g <= F2Q f)%Q.
Proof.
  intros R N E L.
  assert (B : SFleb g f = true) by exact (Rounds_mono _ _ _ _ (Rounds_exact g N E) R L).
  split; [exact B|]. apply normal_leb_value; [exact N | apply (Rounds_normal x f R) | exact B].
Qed.

Lemma Rounds_upper (x : Q) (f g : float64) :
  Rounds x f -> normal g -> -1074 <= expo g <= 969 -> (x <= F2Q g)%Q ->
  SFleb f g = true /\ (F2Q f <= F2Q g)%Q.
Proof.
  intros R N E L.
  assert (B : SFleb f g = true) by exact (Rounds_mono _ _ _ _ R (Rounds_exact g N E) L).
  split; [exact B|]. apply normal_leb_value; [apply (Rounds_normal x f R) | exact N | exact B].
Qed.

Lemma Rounds_mono_value (x1 x2 : Q) (f1 f2 : float64) :
  Rounds x1 f1 -> Rounds x2 f2 -> (x1 <= x2)%Q -> (F2Q f1 <= F2Q f2)%Q.
Proof.
  intros R1 R2 L. apply normal_leb_value.
  - apply (Rounds_normal _ _ R1).
  - apply (Rounds_normal _ _ R2).
  - exact (Rounds_mono _ _ _ _ R1 R2 L).
Qed.

(* ================================================================= *)
(** * The operations round correctly *)

Lemma iter_xO (p k : positive) : Zpos (Pos.iter xO p k) = Zpos p * 2 ^ Zpos k.
Proof.
  change (Pos.iter xO p k) with (shift_pos k p).
  rewrite shift_pos_correct. rewrite Z.pow_pos_fold. ring.
Qed.

Lemma digits2_shift (p k : positive) :
  Zpos (digits2_pos (Pos.iter xO p k)) = Zpos (digits2_pos p) + Zpos k.
Proof.
  apply digits2_unique. rewrite iter_xO. pose proof (digits2_bounds p) as [L U].
  assert (P : 0 < 2 ^ Zpos k) by (apply Z.pow_pos_nonneg; lia).
  replace (Zpos (digits2_pos p) + Zpos k - 1) with (Zpos (digits2_pos p) - 1 + Zpos k) by lia.
  rewrite !Z.pow_add_r by lia. split.
  - apply Z.mul_le_mono_nonneg_r; lia.
  - apply Z.mul_lt_mono_pos_r; lia.
Qed.

Lemma binary_round_rounds (s : bool) (p : positive) (e : Z) :
  -1074 <= Zpos (digits2_pos p) + e - 53 <= 969 ->
  exists m l,
    Canon (inject_Z (Zpos p) * pow2 e)%Q m l (Zpos (digits2_pos p) + e - 53)
    /\ binary_round 53 1024 s p e = rounded s m l (Zpos (digits2_pos p) + e - 53).
Proof.
  intros Hr. unfold binary_round. set (d := Zpos (digits2_pos p)) in *.
  rewrite (fexp_normal (d + e)) by lia. unfold shl_align.
  replace (d + e - 53 - e) with (d - 53) by lia.
  destruct (d - 53) as [|k|k] eqn:E.
  - apply binary_round_aux_rounds; fold d; try lia.
    cbn [Bracket]. rewrite <- Qmult_assoc, pow2_cancel. ring.
  - apply binary_round_aux_rounds; fold d; try lia.
    cbn [Bracket]. rewrite <- Qmult_assoc, pow2_cancel. ring.
  - pose proof (digits2_shift p k) as D. fold d in D.
    destruct (binary_round_aux_rounds s (Pos.iter xO p k) (d + e - 53) loc_Exact
                (inject_Z (Zpos p) * pow2 e)%Q) as (m & l & C & R).
    + lia.
    + lia.
    + cbn [Bracket]. rewrite iter_xO, inject_Z_mult, <- pow2_Z by lia.
      rewrite <- Qmult_assoc, <- pow2_add. replace (e + - (d + e - 53)) with (Zpos k) by lia.
      reflexivity.
    + exists m, l. replace (Zpos (digits2_pos (Pos.iter xO p k)) + (d + e - 53) - 53)
        with (d + e - 53) in * by lia. split; assumption.
Qed.

Lemma binary_round_Rounds (p : positive) (e : Z) :
  -1074 <= Zpos (digits2_pos p) + e - 53 <= 969 ->
  Rounds (inject_Z (Zpos p) * pow2 e)%Q (binary_round 53 1024 false p e)
  /\ Zpos (digits2_pos p) + e - 53 <= expo (binary_round 53 1024 false p e)
     <= Zpos (digits2_pos p) + e - 52.
Proof.
  intros Hr. destruct (binary_round_rounds false p e Hr) as (m & l & C & ->). split.
  - exists m, l, (Zpos (digits2_pos p) + e - 53). split; [exact C|]. split; [exact Hr | reflexivity].
  - destruct C as [Hm _]. pose proof (rounded_normal m l (Zpos (digits2_pos p) + e - 53) Hm).
    lia.
Qed.

(** [binary_round] with a sign. *)
Lemma binary_round_sign (s : bool) (p : positive) (e : Z) :
  -1074 <= Zpos (digits2_pos p) + e - 53 <= 969 ->
  binary_round 53 1024 s p e = with_sign s (binary_round 53 1024 false p e).
Proof.
  intros Hr. destruct (binary_round_rounds s p e Hr) as (m & l & C & ->).
  destruct (binary_round_rounds false p e Hr) as (m' & l' & C' & ->).
  destruct (Canon_mono _ _ _ _ _ _ _ _ C C' (Qle_refl _)) as [H|[_ [H|[E1 H1]]]]; try lia;
  destruct (Canon_mono _ _ _ _ _ _ _ _ C' C (Qle_refl _)) as [H'|[_ [H'|[E2 H2]]]]; try lia.
  subst m'. assert (l = l').
  { destruct l as [|[| |]], l' as [|[| |]]; cbn in *; try reflexivity; lia. }
  subst l'. reflexivity.
Qed.

Lemma digits2_le (p : positive) (k : Z) : Zpos p < 2 ^ k -> Zpos (digits2_pos p) <= k.
Proof.
  intros H. pose proof (digits2_bounds p) as [L _].
  destruct (Z.le_gt_cases (Zpos (digits2_pos p)) k) as [|G]; [assumption|].
  assert (0 <= k).
  { destruct (Z.le_gt_cases 0 k); [assumption|]. rewrite Z.pow_neg_r in H by lia. lia. }
  assert (2 ^ k <= 2 ^ (Zpos (digits2_pos p) - 1)) by (apply Z.pow_le_mono_r; lia). lia.
Qed.

Lemma digits2_ge (p : positive) (k : Z) : 2 ^ k <= Zpos p -> k < Zpos (digits2_pos p).
Proof.
  intros H. pose proof (digits2_bounds p) as [_ U].
  destruct (Z.lt_ge_cases k (Zpos (digits2_pos p))) as [|G]; [assumption|].
  assert (2 ^ Zpos (digits2_pos p) <= 2 ^ k) by (apply Z.pow_le_mono_r; lia). lia.
Qed.

(** [float64(z)] for a positive [z] below [2^64]. *)
Lemma of_int_Rounds (z : Z) :
  0 < z < 2 ^ 64 ->
  Rounds (inject_Z z) (Float64.of_int z) /\ normal_in 52 (Float64.of_int z).
Proof.
  intros [H0 H1]. destruct z as [|p|p]; try lia.
  unfold Float64.of_int, binary_normalize, Float64.prec, Float64.emax.
  pose proof (digits2_le p 64 H1) as D.
  assert (D0 : 1 <= Zpos (digits2_pos p)) by lia.
  destruct (binary_round_Rounds p 0) as [R E]; [lia|]. split.
  - eapply Rounds_ext; [|exact R]. rewrite pow2_0. ring.
  - split; [apply (Rounds_normal _ _ R) | lia].
Qed.

Lemma of_int_0 : Float64.of_int 0 = S754_zero false.
Proof. reflexivity. Qed.

(** [float64(z)] is exact up to [2^53]. *)
Lemma of_int_exact (z : Z) :
  0 < z <= 2 ^ 53 -> (F2Q (Float64.of_int z) == inject_Z z)%Q.
Proof.
  intros [H0 H1].
  destruct (Z.eq_dec z (2 ^ 53)) as [->|NE]; [vm_compute; reflexivity|].
  destruct z as [|p|p]; try lia.
  unfold Float64.of_int, binary_normalize, Float64.prec, Float64.emax.
  assert (D' : Zpos (digits2_pos p) <= 53) by (apply digits2_le; lia).
  assert (D0 : 1 <= Zpos (digits2_pos p)) by lia.
  destruct (binary_round_rounds false p 0) as (m & l & C & ->); [lia|].
  set (d := Zpos (digits2_pos p)) in *.
  assert (Cx : Canon (inject_Z (Zpos p) * pow2 0)%Q (Zpos p * 2 ^ (53 - d)) loc_Exact (d + 0 - 53)).
  { pose proof (digits2_bounds p) as [L U]. fold d in L, U. split.
    - assert (E52 : 2 ^ 52 = 2 ^ (d - 1) * 2 ^ (53 - d))
        by (rewrite <- Z.pow_add_r by lia; f_equal; lia).
      assert (E53 : 2 ^ 53 = 2 ^ d * 2 ^ (53 - d))
        by (rewrite <- Z.pow_add_r by lia; f_equal; lia).
      assert (0 < 2 ^ (53 - d)) by (apply Z.pow_pos_nonneg; lia).
      rewrite E52, E53. split.
      + apply Z.mul_le_mono_nonneg_r; lia.
      + apply Z.mul_lt_mono_pos_r; lia.
    - cbn [Bracket]. rewrite inject_Z_mult, <- pow2_Z by lia.
      rewrite <- Qmult_assoc, <- pow2_add. replace (0 + - (d + 0 - 53)) with (53 - d) by lia.
      reflexivity. }
  destruct (Canon_mono _ _ _ _ _ _ _ _ C Cx (Qle_refl _)) as [H|[_ [H|[E1 H1']]]]; try lia;
  destruct (Canon_mono _ _ _ _ _ _ _ _ Cx C (Qle_refl _)) as [H'|[_ [H'|[E2 H2]]]]; try lia.
  assert (l = loc_Exact).
  { destruct l as [|[| |]]; cbn in *; try reflexivity; lia. }
  subst l m. destruct Cx as [Hm _].
  unfold rounded, carry. cbn [round_nearest_even].
  destruct (Z.eqb_spec (Zpos p * 2 ^ (53 - d)) (2 ^ 53)); [lia|]. cbn [fst snd].
  rewrite F2Q_finite, Z2Pos.id by lia.
  rewrite inject_Z_mult, <- pow2_Z by lia. rewrite <- Qmult_assoc, <- pow2_add.
  replace (53 - d + (d + 0 - 53)) with 0 by lia. rewrite pow2_0. ring.
Qed.

Lemma pow2_opp (e : Z) : (pow2 (- e) == / pow2 e)%Q.
Proof. apply Qpower_opp. Qed.

Lemma pow2_neq0 (e : Z) : ~ (pow2 e == 0)%Q.
Proof. pose proof (pow2_pos e). lra. Qed.

Lemma pow2_sub (a b : Z) : (pow2 (a - b) * pow2 b == pow2 a)%Q.
Proof. rewrite <- pow2_add. replace (a - b + b) with a by lia. reflexivity. Qed.

Lemma shl_align_fst (m : positive) (e ez : Z) :
  ez <= e -> Zpos (fst (shl_align m e ez)) = Zpos m * 2 ^ (e - ez).
Proof.
  intros H. unfold shl_align. destruct (ez - e) as [|k|k] eqn:E; cbn [fst]; try lia.
  - replace (e - ez) with 0 by lia. lia.
  - rewrite iter_xO. f_equal. f_equal. lia.
Qed.

(** Addition of two positive normal numbers. *)
Lemma add_Rounds (a b : float64) :
  normal a -> normal b -> -1000 <= expo a <= 900 -> -1000 <= expo b <= 900 ->
  Rounds (F2Q a + F2Q b)%Q (Float64.add a b)
  /\ Z.max (expo a) (expo b) <= expo (Float64.add a b) <= Z.max (expo a) (expo b) + 2.
Proof.
  intros (ma & ea & -> & Ha) (mb & eb & -> & Hb) Ea Eb. cbn [expo] in *.
  unfold Float64.add, SFadd, Float64.prec, Float64.emax. cbn [cond_Zopp].
  set (ez := Z.min ea eb).
  pose proof (shl_align_fst ma ea ez ltac:(lia)) as Sa.
  pose proof (shl_align_fst mb eb ez ltac:(lia)) as Sb.
  set (pa := fst (shl_align ma ea ez)) in *. set (pb := fst (shl_align mb eb ez)) in *.
  change (Zpos pa + Zpos pb) with (Zpos (pa + pb)). cbn [binary_normalize].
  assert (Ka : 0 < 2 ^ (ea - ez)) by (apply Z.pow_pos_nonneg; lia).
  assert (Kb : 0 < 2 ^ (eb - ez)) by (apply Z.pow_pos_nonneg; lia).
  set (eM := Z.max ea eb).
  assert (KM : 2 ^ (ea - ez) <= 2 ^ (eM - ez) /\ 2 ^ (eb - ez) <= 2 ^ (eM - ez)
               /\ (2 ^ (ea - ez) = 2 ^ (eM - ez) \/ 2 ^ (eb - ez) = 2 ^ (eM - ez))).
  { split; [apply Z.pow_le_mono_r; lia|]. split; [apply Z.pow_le_mono_r; lia|].
    destruct (Z.max_spec ea eb) as [[_ E]|[_ E]]; fold eM in E; rewrite E; auto. }
  assert (0 < 2 ^ (eM - ez)) by (apply Z.pow_pos_nonneg; lia).
  assert (D1 : 52 + (eM - ez) < Zpos (digits2_pos (pa + pb))).
  { apply digits2_ge. rewrite Z.pow_add_r by lia. rewrite Pos2Z.inj_add, Sa, Sb. nia. }
  assert (D2 : Zpos (digits2_pos (pa + pb)) <= 54 + (eM - ez)).
  { apply digits2_le. rewrite Z.pow_add_r by lia. rewrite Pos2Z.inj_add, Sa, Sb.
    change (2 ^ 54) with (2 * 2 ^ 53). nia. }
  destruct (binary_round_Rounds (pa + pb) ez) as [R E]; [lia|]. split.
  - eapply Rounds_ext; [|exact R]. rewrite !F2Q_finite.
    rewrite Pos2Z.inj_add, Sa, Sb, inject_Z_plus, !inject_Z_mult.
    rewrite <- !pow2_Z by lia.
    rewrite Qmult_plus_distr_l, <- !Qmult_assoc, !pow2_sub. reflexivity.
  - lia.
Qed.

Lemma new_location_spec (nb k q : Z) :
  0 < nb -> 0 <= k < nb ->
  Bracket q (new_location nb k) (inject_Z q + inject_Z k / inject_Z nb)%Q.
Proof.
  intros Hn Hk.
  assert (N : (0 < inject_Z nb)%Q) by (change 0%Q with (inject_Z 0); rewrite <- Zlt_Qlt; lia).
  set (t := (inject_Z k / inject_Z nb)%Q).
  assert (T : (t * inject_Z nb == inject_Z k)%Q).
  { unfold t. field. lra. }
  assert (Lt_half : 2 * k < nb -> (t < 1 # 2)%Q).
  { intros H. apply Qlt_shift_div_r; [exact N|].
    rewrite Zlt_Qlt, inject_Z_mult in H. change (inject_Z 2) with 2%Q in H. lra. }
  assert (Gt_half : nb < 2 * k -> ((1 # 2) < t)%Q).
  { intros H. apply Qlt_shift_div_l; [exact N|].
    rewrite Zlt_Qlt, inject_Z_mult in H. change (inject_Z 2) with 2%Q in H. lra. }
  assert (Eq_half : 2 * k = nb -> (t == 1 # 2)%Q).
  { intros H. unfold t. rewrite <- H, inject_Z_mult. change (inject_Z 2) with 2%Q.
    field. intros Z0. rewrite <- H, inject_Z_mult in N. change (inject_Z 2) with 2%Q in N. lra. }
  assert (Pos_t : 0 < k -> (0 < t)%Q).
  { intros H. apply Qlt_shift_div_l; [exact N|].
    rewrite Zlt_Qlt in H. change (inject_Z 0) with 0%Q in H. lra. }
  assert (Lt_one : (t < 1)%Q).
  { apply Qlt_shift_div_r; [exact N|]. destruct Hk as [_ H]. rewrite Zlt_Qlt in H. lra. }
  unfold new_location, new_location_even, new_location_odd.
  destruct (Z.even nb) eqn:Ev.
  - destruct (Z.eqb_spec k 0) as [->|NZ].
    + cbn [Bracket]. unfold t. change (inject_Z 0) with 0%Q. field. lra.
    + destruct (Z.compare_spec (2 * k) nb) as [C|C|C]; cbn [Bracket].
      * rewrite (Eq_half C). reflexivity.
      * pose proof (Lt_half C). pose proof (Pos_t ltac:(lia)). lra.
      * pose proof (Gt_half C). lra.
  - destruct (Z.eqb_spec k 0) as [->|NZ].
    + cbn [Bracket]. unfold t. change (inject_Z 0) with 0%Q. field. lra.
    + assert (Odd : 2 * k <> nb).
      { intros E. rewrite <- E, Z.even_mul in Ev. discriminate. }
      destruct (Z.compare_spec (2 * k + 1) nb) as [C|C|C]; cbn [Bracket].
      * pose proof (Lt_half ltac:(lia)). pose proof (Pos_t ltac:(lia)). lra.
      * pose proof (Lt_half ltac:(lia)). pose proof (Pos_t ltac:(lia)). lra.
      * pose proof (Gt_half ltac:(lia)). lra.
Qed.

(** Division of two positive normal numbers. *)
Lemma div_Rounds (a b : float64) :
  normal a -> normal b -> -500 <= expo a <= 400 -> -500 <= expo b <= 400 ->
  Rounds (F2Q a / F2Q b)%Q (Float64.div a b)
  /\ expo a - expo b - 53 <= expo (Float64.div a b) <= expo a - expo b - 51.
Proof.
  intros (ma & ea & -> & Ha) (mb & eb & -> & Hb) Ea Eb. cbn [expo] in *.
  unfold Float64.div, SFdiv, SFdiv_core_binary, Float64.prec, Float64.emax.
  cbn [Zdigits2 xorb].
  rewrite (digits2_unique ma 53), (digits2_unique mb 53) by (change (53 - 1) with 52; lia).
  replace (53 + ea - (53 + eb)) with (ea - eb) by lia.
  rewrite (fexp_normal (ea - eb)) by lia.
  rewrite Z.min_l by lia.
  replace (ea - eb - (ea - eb - 53)) with 53 by lia. cbv iota beta.
  rewrite Z.shiftl_mul_pow2 by lia.
  pose proof (Z_div_mod (Zpos ma * 2 ^ 53) (Zpos mb) ltac:(lia)) as DM.
  destruct (Z.div_eucl (Zpos ma * 2 ^ 53) (Zpos mb)) as [q r]. destruct DM as [DM Hr].
  assert (Q1 : 2 ^ 52 <= q) by nia.
  assert (Q2 : q < 2 ^ 54) by (change (2 ^ 54) with (2 * 2 ^ 53); nia).
  destruct q as [|pq|pq]; try lia.
  assert (D1 : 52 < Zpos (digits2_pos pq)) by (apply digits2_ge; lia).
  assert (D2 : Zpos (digits2_pos pq) <= 54) by (apply digits2_le; lia).
  set (x := (F2Q (S754_finite false ma ea) / F2Q (S754_finite false mb eb))%Q).
  destruct (binary_round_aux_rounds false pq (ea - eb - 53) (new_location (Zpos mb) r) x)
    as (m & l & C & ->); try lia.
  - eapply Bracket_ext; [|apply (new_location_spec (Zpos mb) r (Zpos pq)); lia].
    assert (B0 : (0 < inject_Z (Zpos mb))%Q) by reflexivity.
    assert (E : (inject_Z (Zpos ma) * inject_Z (2 ^ 53)
                 == inject_Z (Zpos mb) * inject_Z (Zpos pq) + inject_Z r)%Q).
    { rewrite <- !inject_Z_mult, <- inject_Z_plus. now rewrite DM. }
    unfold x. rewrite !F2Q_finite.
    replace (- (ea - eb - 53)) with (- ea + (eb + 53)) by lia.
    rewrite !pow2_add, pow2_opp, (pow2_Z 53) by lia.
    pose proof (pow2_neq0 ea). pose proof (pow2_neq0 eb).
    set (Pa := pow2 ea) in *. set (Pb := pow2 eb) in *.
    transitivity ((inject_Z (Zpos ma) * inject_Z (2 ^ 53)) / inject_Z (Zpos mb))%Q.
    + rewrite E. field. lra.
    + field. repeat split; try assumption; lra.
  - split.
    + exists m, l, (Zpos (digits2_pos pq) + (ea - eb - 53) - 53).
      split; [exact C|]. split; [lia | reflexivity].
    + destruct C as [Hm _].
      pose proof (rounded_normal m l (Zpos (digits2_pos pq) + (ea - eb - 53) - 53) Hm). lia.
Qed.

(* ================================================================= *)
(** * Signs *)

Lemma shr_nonneg (mrs : shr_record) (e n : Z) :
  0 <= shr_m mrs -> 0 <= shr_m (fst (shr mrs e n)).
Proof.
  intros H. unfold shr. destruct n; cbn [fst]; try assumption.
  now apply shr_iter_nonneg.
Qed.

Lemma shr_fexp_nonneg (m e : Z) (l : location) :
  0 <= m -> 0 <= shr_m (fst (shr_fexp 53 1024 m e l)).
Proof.
  intros H. unfold shr_fexp. apply shr_nonneg. destruct l as [|[| |]]; exact H.
Qed.

(** Rounding a non-negative mantissa yields a zero, a finite number or
    an infinity of the requested sign. *)
Lemma binary_round_aux_sign (s : bool) (m e : Z) (l : location) :
  0 <= m ->
  match binary_round_aux 53 1024 s m e l with
  | S754_zero s' | S754_infinity s' | S754_finite s' _ _ => s' = s
  | S754_nan => False
  end.
Proof.
  intros H. unfold binary_round_aux.
  pose proof (shr_fexp_nonneg m e l H) as H1.
  destruct (shr_fexp 53 1024 m e l) as [mrs' e']. cbn [fst] in H1.
  pose proof (rne_range (shr_m mrs') (loc_of_shr_record mrs')) as R.
  pose proof (shr_fexp_nonneg (round_nearest_even (shr_m mrs') (loc_of_shr_record mrs'))
                e' loc_Exact ltac:(lia)) as H2.
  destruct (shr_fexp 53 1024 _ e' loc_Exact) as [mrs'' e'']. cbn [fst] in H2.
  destruct (shr_m mrs'') as [|q|q]; try lia; try reflexivity.
  destruct (e'' <=? 1024 - 53); reflexivity.
Qed.

Lemma binary_round_sign_any (s : bool) (p : positive) (e : Z) :
  match binary_round 53 1024 s p e with
  | S754_zero s' | S754_infinity s' | S754_finite s' _ _ => s' = s
  | S754_nan => False
  end.
Proof.
  unfold binary_round. destruct (shl_align p e _) as [mz ez].
  apply binary_round_aux_sign. lia.
Qed.

Lemma nonpos_of_int (z : Z) : z <= 0 -> nonpos (Float64.of_int z).
Proof.
  intros H. destruct z as [|p|p]; try lia; [exact I|].
  unfold Float64.of_int, binary_normalize, Float64.prec, Float64.emax.
  pose proof (binary_round_sign_any true p 0) as S. revert S.
  destruct (binary_round 53 1024 true p 0); cbn; auto; contradiction.
Qed.

Lemma nonpos_div (a b : float64) :
  nonpos a -> normal b -> nonpos (Float64.div a b).
Proof.
  intros Ha (mb & eb & -> & Hb). unfold Float64.div, SFdiv.
  destruct a as [sa|sa| |sa ma ea]; cbn in Ha; try contradiction; try subst sa; cbn; auto.
  destruct (SFdiv_core_binary Float64.prec Float64.emax (Zpos ma) ea (Zpos mb) eb)
    as [[mz ez] lz] eqn:E.
  assert (0 <= mz).
  { unfold SFdiv_core_binary in E.
    destruct (Z.div_eucl _ (Zpos mb)) as [q r] eqn:DE in E.
    inversion E; subst. clear E.
    match type of DE with Z.div_eucl ?n _ = _ =>
      assert (N : 0 <= n) by (destruct (ea - eb - _) as [|k|k];
        [lia | apply Z.shiftl_nonneg; lia | lia]);
      pose proof (Z_div_mod n (Zpos mb) ltac:(lia)) as DM; rewrite DE in DM end.
    nia. }
  pose proof (binary_round_aux_sign true mz ez lz H) as S.
  unfold Float64.prec, Float64.emax. revert S.
  destruct (binary_round_aux 53 1024 true mz ez lz); cbn; auto; contradiction.
Qed.

Lemma nonpos_add (a b : float64) :
  nonpos a -> nonpos b -> nonpos (Float64.add a b).
Proof.
  intros Ha Hb. unfold Float64.add, SFadd.
  destruct a as [sa|sa| |sa ma ea], b as [sb|sb| |sb mb eb]; cbn in Ha, Hb;
    try contradiction; subst; cbn [nonpos]; auto;
    try (destruct sa; cbn; auto; fail); try (destruct sb; cbn; auto; fail).
  - destruct sa, sb; exact I.
  - cbn [cond_Zopp].
    change (- Zpos (fst (shl_align ma ea (Z.min ea eb)))
            + - Zpos (fst (shl_align mb eb (Z.min ea eb))))
      with (Zneg (fst (shl_align ma ea (Z.min ea eb)) + fst (shl_align mb eb (Z.min ea eb)))).
    cbn [binary_normalize].
    pose proof (binary_round_sign_any true
                  (fst (shl_align ma ea (Z.min ea eb)) + fst (shl_align mb eb (Z.min ea eb)))
                  (Z.min ea eb)) as S.
    unfold Float64.prec, Float64.emax. revert S.
    destruct (binary_round 53 1024 true _ (Z.min ea eb)); cbn; auto; contradiction.
Qed.

Lemma nonpos_not_gt (x c : float64) :
  nonpos x -> normal c -> Float64.gtb x c = false.
Proof.
  intros Hx (m & e & -> & _). unfold Float64.gtb, Float64.ltb, SFltb.
  destruct x as [s|s| |s mx ex]; cbn in Hx; try contradiction; subst; reflexivity.
Qed.

Lemma nonpos_trunc (x : float64) (z : Z) :
  nonpos x -> Float64.trunc x = Some z -> z <= 0.
Proof.
  destruct x as [s|s| |s m e]; cbn; intros H E; try discriminate.
  - inversion E. lia.
  - subst s. inversion E. subst z. clear E.
    destruct (0 <=? e).
    + pose proof (Z.shiftl_nonneg (Zpos m) e). lia.
    + pose proof (Z.shiftr_nonneg (Zpos m) (- e)). lia.
Qed.

Lemma nonpos_to_int (x : float64) : nonpos x -> Float64.to_int x <= 0.
Proof.
  intros H. unfold Float64.to_int.
  destruct (Float64.trunc x) as [z|] eqn:E; [|unfold Float64.indefinite, Int64.min_int; lia].
  pose proof (nonpos_trunc x z H E).
  destruct ((Int64.min_int <=? z) && (z <=? Int64.max_int)); [assumption|].
  unfold Float64.indefinite, Int64.min_int. lia.
Qed.

(* ================================================================= *)
(** * Conversion to an integer *)

Lemma trunc_floor (f : float64) :
  normal f ->
  exists n, Float64.trunc f = Some n /\ 0 <= n
            /\ (inject_Z n <= F2Q f)%Q /\ (F2Q f < inject_Z n + 1)%Q.
Proof.
  intros (m & e & -> & Hm). rewrite F2Q_finite. cbn [Float64.trunc].
  destruct (Z.leb_spec 0 e) as [He|He].
  - exists (Z.shiftl (Zpos m) e). split; [reflexivity|].
    rewrite Z.shiftl_mul_pow2 by lia.
    assert (0 < 2 ^ e) by (apply Z.pow_pos_nonneg; lia).
    split; [lia|]. rewrite inject_Z_mult, <- pow2_Z by lia. split; lra.
  - exists (Z.shiftr (Zpos m) (- e)). split; [reflexivity|].
    rewrite Z.shiftr_div_pow2 by lia.
    set (k := - e) in *.
    assert (K : 0 < 2 ^ k) by (apply Z.pow_pos_nonneg; lia).
    pose proof (Z.div_mod (Zpos m) (2 ^ k) ltac:(lia)) as DM.
    pose proof (Z.mod_pos_bound (Zpos m) (2 ^ k) K) as MB.
    set (n := Zpos m / 2 ^ k) in *.
    assert (N0 : 0 <= n) by (apply Z.div_pos; lia).
    split; [exact N0|].
    assert (PE : (pow2 e == / inject_Z (2 ^ k))%Q).
    { replace e with (- k) by lia. rewrite pow2_opp, pow2_Z by lia. reflexivity. }
    assert (K' : (0 < inject_Z (2 ^ k))%Q)
      by (change 0%Q with (inject_Z 0); rewrite <- Zlt_Qlt; exact K).
    rewrite PE. split.
    + apply Qle_shift_div_l; [exact K'|]. rewrite <- inject_Z_mult, <- Zle_Qle. lia.
    + apply Qlt_shift_div_r; [exact K'|].
      change 1%Q with (inject_Z 1). rewrite <- inject_Z_plus, <- inject_Z_mult, <- Zlt_Qlt. lia.
Qed.

Lemma to_int_floor (f : float64) (lo hi : Z) :
  normal f -> (inject_Z lo <= F2Q f)%Q -> (F2Q f < inject_Z hi)%Q ->
  hi <= 2 ^ 63 ->
  Z.max 0 lo <= Float64.to_int f < hi
  /\ (inject_Z (Float64.to_int f) <= F2Q f)%Q
  /\ (F2Q f < inject_Z (Float64.to_int f) + 1)%Q.
Proof.
  intros N L U Hhi. destruct (trunc_floor f N) as (n & E & N0 & A & B).
  assert (n < hi).
  { rewrite Zlt_Qlt. lra. }
  assert (lo <= n).
  { assert (lo < n + 1); [|lia]. rewrite Zlt_Qlt, inject_Z_plus.
    change (inject_Z 1) with 1%Q. lra. }
  unfold Float64.to_int. rewrite E.
  replace ((Int64.min_int <=? n) && (n <=? Int64.max_int)) with true.
  - repeat split; try lia; assumption.
  - symmetry. unfold Int64.min_int, Int64.max_int. apply andb_true_iff.
    split; [apply Z.leb_le | apply Z.leb_le]; lia.
Qed.

(* ================================================================= *)
(** * Rounding of non-negative reals *)

Lemma RNN_nonneg (x : Q) (f : float64) : RNN x f -> (0 <= x)%Q.
Proof.
  intros [[E _]|R]; [lra|]. pose proof (Rounds_pos _ _ R). lra.
Qed.

Lemma RNN_value_nonneg (x : Q) (f : float64) : RNN x f -> (0 <= F2Q f)%Q.
Proof.
  intros [[_ ->]|R]; [cbn; lra|].
  pose proof (normal_pos f (proj1 (Rounds_normal _ _ R))). lra.
Qed.

Lemma RNN_ext (x x' : Q) (f : float64) : (x == x')%Q -> RNN x f -> RNN x' f.
Proof.
  intros E [[Z ->]|R]; [left; split; [lra | reflexivity] | right].
  exact (Rounds_ext _ _ _ E R).
Qed.

Lemma RNN_lower (x : Q) (f g : float64) :
  RNN x f -> normal g -> -1074 <= expo g <= 969 -> (F2Q g <= x)%Q ->
  SFleb g f = true /\ (F2Q g <= F2Q f)%Q /\ normal f.
Proof.
  intros [[Z ->]|R] N E L.
  - pose proof (normal_pos g N). lra.
  - destruct (Rounds_lower _ _ _ R N E L). repeat split; try assumption.
    apply (Rounds_normal _ _ R).
Qed.

Lemma RNN_upper (x : Q) (f g : float64) :
  RNN x f -> normal g -> -1074 <= expo g <= 969 -> (x <= F2Q g)%Q ->
  SFleb f g = true /\ (F2Q f <= F2Q g)%Q.
Proof.
  intros [[Z ->]|R] N E L.
  - destruct N as (m & e & -> & _). split; [reflexivity|].
    rewrite F2Q_finite. cbn [F2Q].
    assert (0 < inject_Z (Zpos m) * pow2 e)%Q
      by (apply Qmult_lt_0_compat; [reflexivity | apply pow2_pos]). lra.
  - exact (Rounds_upper _ _ _ R N E L).
Qed.

Lemma of_int_RNN (z : Z) :
  0 <= z < 2 ^ 64 -> RNN (inject_Z z) (Float64.of_int z) /\ nn_in 52 (Float64.of_int z).
Proof.
  intros [H0 H1]. destruct (Z.eq_dec z 0) as [->|NZ].
  - split; left; [split|]; reflexivity.
  - destruct (of_int_Rounds z ltac:(lia)) as [R N]. split; right; assumption.
Qed.

Lemma of_int_value (z : Z) :
  0 <= z <= 2 ^ 53 -> (F2Q (Float64.of_int z) == inject_Z z)%Q.
Proof.
  intros [H0 H1]. destruct (Z.eq_dec z 0) as [->|NZ]; [reflexivity|].
  apply of_int_exact. lia.
Qed.

Lemma div_RNN (a b : float64) (ka kb : Z) :
  nn_in ka a -> normal_in kb b -> 0 <= ka <= 400 -> 0 <= kb <= 400 ->
  RNN (F2Q a / F2Q b)%Q (Float64.div a b) /\ nn_in (ka + kb + 53) (Float64.div a b).
Proof.
  intros [->|[Na Ea]] [Nb Eb] Ka Kb.
  - destruct Nb as (mb & eb & -> & Hb). split; left; [split|]; reflexivity.
  - destruct (div_Rounds a b Na Nb ltac:(lia) ltac:(lia)) as [R E].
    split; right; [exact R|]. split; [apply (Rounds_normal _ _ R) | lia].
Qed.

Lemma add_RNN (a b : float64) (k : Z) :
  nn_in k a -> nn_in k b -> 0 <= k <= 900 ->
  RNN (F2Q a + F2Q b)%Q (Float64.add a b) /\ nn_in (k + 2) (Float64.add a b).
Proof.
  intros [->|[Na Ea]] [->|[Nb Eb]] K.
  - split; left; [split|]; try reflexivity.
  - assert (E : Float64.add (S754_zero false) b = b)
      by (destruct Nb as (mb & eb & -> & _); reflexivity).
    rewrite E. split; right.
    + eapply Rounds_ext; [|apply (Rounds_exact b Nb); lia]. cbn [F2Q]. ring.
    + split; [exact Nb | lia].
  - assert (E : Float64.add a (S754_zero false) = a)
      by (destruct Na as (ma & ea & -> & _); reflexivity).
    rewrite E. split; right.
    + eapply Rounds_ext; [|apply (Rounds_exact a Na); lia]. cbn [F2Q]. ring.
    + split; [exact Na | lia].
  - destruct (add_Rounds a b Na Nb ltac:(lia) ltac:(lia)) as [R E].
    split; right; [exact R|]. split; [apply (Rounds_normal _ _ R) | lia].
Qed.

(* ================================================================= *)
(** * [int64] arithmetic without overflow *)

Lemma wrap_id (z : Z) : Int64.in_range z -> Int64.wrap z = z.
Proof.
  unfold Int64.in_range, Int64.wrap, Int64.min_int, Int64.max_int. intros H.
  rewrite Z.mod_small; lia.
Qed.

Lemma quot_nonneg (d u : Z) :
  0 <= d <= Int64.max_int -> 0 < u -> Int64.quot d u = d / u /\ Int64.rem d u = d mod u.
Proof.
  intros Hd Hu. unfold Int64.quot, Int64.rem.
  rewrite Z.quot_div_nonneg, Z.rem_mod_nonneg by lia. split; [|reflexivity].
  apply wrap_id. unfold Int64.in_range, Int64.min_int, Int64.max_int in *.
  pose proof (Z.div_pos d u ltac:(lia) Hu).
  assert (d / u <= d) by (apply Z.div_le_upper_bound; nia). lia.
Qed.

Lemma quot_nonpos (d u : Z) :
  Int64.min_int <= d <= 0 -> 0 < u -> Int64.quot d u <= 0 /\ Int64.rem d u <= 0.
Proof.
  intros Hd Hu. unfold Int64.quot, Int64.rem.
  assert (Q : Z.quot d u = - ((- d) / u)).
  { rewrite <- Z.quot_div_nonneg by lia. rewrite Z.quot_opp_l by lia. lia. }
  assert (R : Z.rem d u = - ((- d) mod u)).
  { rewrite <- Z.rem_mod_nonneg by lia. rewrite Z.rem_opp_l by lia. lia. }
  pose proof (Z.div_pos (- d) u ltac:(lia) Hu).
  pose proof (Z.mod_pos_bound (- d) u Hu).
  assert ((- d) / u <= - d) by (apply Z.div_le_upper_bound; nia).
  rewrite Q, R. split; [|lia]. rewrite wrap_id; [lia|].
  unfold Int64.in_range, Int64.min_int, Int64.max_int in *. lia.
Qed.

(* ================================================================= *)
(** * [Seconds], [Minutes], [Hours] *)

Lemma Seconds_units (d : Time.Duration) : Time.Seconds d = unitsOf Time.Second d.
Proof. reflexivity. Qed.

Lemma Minutes_units (d : Time.Duration) : Time.Minutes d = unitsOf Time.Minute d.
Proof. reflexivity. Qed.

Lemma Hours_units (d : Time.Duration) : Time.Hours d = unitsOf Time.Hour d.
Proof. reflexivity. Qed.

(** A negative duration counts a non-positive number of units. *)
Lemma units_nonpos (u : Z) (d : Time.Duration) :
  0 < u < 2 ^ 64 -> Int64.min_int <= d <= 0 -> nonpos (unitsOf u d).
Proof.
  intros Hu Hd. destruct (quot_nonpos d u Hd ltac:(lia)) as [Q R].
  unfold unitsOf. apply nonpos_add.
  - now apply nonpos_of_int.
  - apply nonpos_div; [now apply nonpos_of_int|].
    apply (of_int_Rounds u Hu).
Qed.

(** A non-negative duration: the count is the rounding of the whole
    units plus the rounded fraction. *)
Lemma units_nonneg (u : Z) (d : Time.Duration) :
  2 ^ 10 <= u < 2 ^ 53 -> 0 <= d <= Int64.max_int ->
  exists fr,
    RNN (inject_Z (d mod u) / inject_Z u)%Q fr
    /\ RNN (inject_Z (d / u) + F2Q fr)%Q (unitsOf u d)
    /\ nn_in 200 (unitsOf u d).
Proof.
  intros Hu Hd. unfold unitsOf.
  destruct (quot_nonneg d u Hd ltac:(lia)) as [EQ ER]. rewrite EQ, ER. clear EQ ER.
  pose proof (Z.mod_pos_bound d u ltac:(lia)) as Hr.
  pose proof (Z.div_pos d u ltac:(lia) ltac:(lia)) as Hq.
  unfold Int64.max_int in Hd.
  assert (Hq' : d / u <= 2 ^ 53).
  { apply Z.lt_le_incl, Z.div_lt_upper_bound; [lia|].
    change (2 ^ 53) with (2 ^ 43 * 2 ^ 10).
    change (2 ^ 63 - 1) with (2 ^ 53 * 2 ^ 10 - 1) in Hd. nia. }
  destruct (of_int_RNN (d mod u) ltac:(lia)) as [Rr Nr].
  destruct (of_int_Rounds u ltac:(lia)) as [Ru Nu].
  destruct (of_int_RNN (d / u) ltac:(lia)) as [Rq Nq].
  destruct (div_RNN _ _ 52 52 Nr Nu ltac:(lia) ltac:(lia)) as [Rf Nf].
  exists (Float64.div (Float64.of_int (d mod u)) (Float64.of_int u)).
  split; [|split].
  - eapply RNN_ext; [|exact Rf].
    rewrite (of_int_value (d mod u)) by lia. rewrite (of_int_value u) by lia. reflexivity.
  - assert (Nq' : nn_in 157 (Float64.of_int (d / u))).
    { destruct Nq as [E|[N E]]; [left; exact E | right; split; [exact N | lia]]. }
    destruct (add_RNN _ _ 157 Nq' Nf ltac:(lia)) as [Rs _].
    eapply RNN_ext; [|exact Rs]. rewrite (of_int_value (d / u)) by lia. reflexivity.
  - assert (Nq' : nn_in 157 (Float64.of_int (d / u))).
    { destruct Nq as [E|[N E]]; [left; exact E | right; split; [exact N | lia]]. }
    destruct (add_RNN _ _ 157 Nq' Nf ltac:(lia)) as [_ Ns].
    destruct Ns as [E|[N E]]; [left; exact E | right; split; [exact N | lia]].
Qed.

Lemma dyadic_spec (n e : Z) :
  0 < n < 2 ^ 53 ->
  normal (dyadic n e)
  /\ (F2Q (dyadic n e) == inject_Z n * pow2 e)%Q
  /\ e - 52 <= expo (dyadic n e) <= e.
Proof.
  intros [H0 H1]. destruct n as [|p|p]; try lia.
  unfold dyadic. cbn [Zdigits2].
  pose proof (digits2_bounds p) as [L U].
  assert (D : Zpos (digits2_pos p) <= 53) by (apply digits2_le; lia).
  set (d := Zpos (digits2_pos p)) in *.
  assert (K : 0 < 2 ^ (53 - d)) by (apply Z.pow_pos_nonneg; lia).
  assert (E52 : 2 ^ 52 = 2 ^ (d - 1) * 2 ^ (53 - d))
    by (rewrite <- Z.pow_add_r by lia; f_equal; lia).
  assert (E53 : 2 ^ 53 = 2 ^ d * 2 ^ (53 - d))
    by (rewrite <- Z.pow_add_r by lia; f_equal; lia).
  assert (M : 2 ^ 52 <= Zpos p * 2 ^ (53 - d) < 2 ^ 53).
  { rewrite E52, E53. split.
    - apply Z.mul_le_mono_nonneg_r; lia.
    - apply Z.mul_lt_mono_pos_r; lia. }
  split; [|split].
  - eexists _, _. split; [reflexivity|]. rewrite Z2Pos.id by lia. exact M.
  - rewrite F2Q_finite, Z2Pos.id by lia.
    rewrite inject_Z_mult, <- pow2_Z by lia. rewrite <- Qmult_assoc, <- pow2_add.
    replace (53 - d + (e - (53 - d))) with e by lia. reflexivity.
  - cbn [expo]. lia.
Qed.

(* ================================================================= *)
(** * [elapsed.Seconds() > 10] *)

Lemma frac_le_1 (r u : Z) :
  0 < u -> 0 <= r < u -> (0 <= inject_Z r / inject_Z u)%Q /\ (inject_Z r / inject_Z u <= 1)%Q.
Proof.
  intros Hu Hr.
  assert (U : (0 < inject_Z u)%Q) by (change 0%Q with (inject_Z 0); rewrite <- Zlt_Qlt; lia).
  split.
  - apply Qle_shift_div_l; [exact U|]. rewrite Qmult_0_l.
    change 0%Q with (inject_Z 0). rewrite <- Zle_Qle. lia.
  - apply Qle_shift_div_r; [exact U|]. rewrite Qmult_1_l. rewrite <- Zle_Qle. lia.
Qed.

Lemma RNN_zero (f : float64) : RNN 0 f -> f = S754_zero false.
Proof.
  intros [[_ E]|R]; [exact E|]. pose proof (Rounds_pos _ _ R). lra.
Qed.

Lemma one_normal : normal one /\ (F2Q one == 1)%Q /\ expo one = -52.
Proof.
  split; [|split; reflexivity].
  exists (Z.to_pos (2 ^ 52)), (-52). split; [reflexivity|]. cbn. lia.
Qed.

Lemma ten_normal :
  normal (Float64.of_int 10) /\ (F2Q (Float64.of_int 10) == 10)%Q
  /\ expo (Float64.of_int 10) = -49.
Proof.
  split; [|split; reflexivity].
  eexists _, _. split; [reflexivity|]. cbn. lia.
Qed.

Lemma Seconds_gt_10 (d : Time.Duration) :
  Int64.in_range d ->
  (Float64.gtb (Time.Seconds d) (Float64.of_int 10) = true <-> 10 * Time.Second < d).
Proof.
  intros Hd. unfold Int64.in_range in Hd. rewrite Seconds_units.
  destruct ten_normal as (N10 & V10 & E10).
  destruct (Z.le_gt_cases d 0) as [Neg|Pos].
  - rewrite (nonpos_not_gt _ _ (units_nonpos Time.Second d ltac:(cbv; split; reflexivity) ltac:(lia)) N10).
    unfold Time.Second. split; [discriminate | lia].
  - destruct (units_nonneg Time.Second d ltac:(cbv; split; [discriminate | reflexivity]) ltac:(lia))
      as (fr & Rf & Rs & _).
    pose proof (Z.mod_pos_bound d Time.Second ltac:(reflexivity)) as Hr.
    pose proof (Z.div_mod d Time.Second ltac:(discriminate)) as DM.
    set (q := d / Time.Second) in *. set (r := d mod Time.Second) in *.
    pose proof (frac_le_1 r Time.Second ltac:(reflexivity) Hr) as [F0 F1].
    pose proof (RNN_value_nonneg _ _ Rf) as V0.
    destruct one_normal as (N1 & V1 & E1).
    destruct (RNN_upper _ _ one Rf N1 ltac:(lia) ltac:(lra)) as [_ VU].
    unfold Float64.gtb.
    destruct (Z.le_gt_cases d (10 * Time.Second)) as [Le|Gt].
    + (* at most ten seconds *)
      assert (X : (inject_Z q + F2Q fr <= F2Q (Float64.of_int 10))%Q).
      { rewrite V10. destruct (Z.le_gt_cases q 9) as [Q9|Q10].
        - assert (inject_Z q <= 9)%Q by (change 9%Q with (inject_Z 9); rewrite <- Zle_Qle; lia).
          lra.
        - assert (q = 10 /\ r = 0) as [Eq Er] by (unfold Time.Second in *; lia).
          rewrite Er in Rf.
          assert (Z0 : (inject_Z 0 / inject_Z Time.Second == 0)%Q) by reflexivity.
          pose proof (RNN_zero fr (RNN_ext _ _ _ Z0 Rf)) as ->. rewrite Eq. cbn [F2Q].
          change (inject_Z 10) with 10%Q. lra. }
      destruct (RNN_upper _ _ _ Rs N10 ltac:(lia) X) as [B _].
      rewrite (leb_not_ltb _ _ B). split; [discriminate | lia].
    + (* more than ten seconds *)
      destruct (dyadic_spec (10 * 2 ^ 30 + 1) (-30) ltac:(cbv; split; reflexivity))
        as (NL & VL & EL).
      assert (VL' : (F2Q (dyadic (10 * 2 ^ 30 + 1) (-30)) == 10 + (1 # 1073741824))%Q).
      { rewrite VL. reflexivity. }
      assert (X : (F2Q (dyadic (10 * 2 ^ 30 + 1) (-30)) <= inject_Z q + F2Q fr)%Q).
      { rewrite VL'. destruct (Z.le_gt_cases 11 q) as [Q11|Q10].
        - assert (11 <= inject_Z q)%Q by (change 11%Q with (inject_Z 11); rewrite <- Zle_Qle; lia).
          lra.
        - assert (q = 10 /\ 1 <= r) as [Eq Er] by (unfold Time.Second in *; lia).
          destruct (dyadic_spec 1 (-30) ltac:(cbv; split; reflexivity)) as (Ne & Ve & Ee).
          assert (L : (F2Q (dyadic 1 (-30)) <= inject_Z r / inject_Z Time.Second)%Q).
          { rewrite Ve. apply Qle_shift_div_l; [reflexivity|].
            assert (inject_Z 1 <= inject_Z r)%Q by (rewrite <- Zle_Qle; lia).
            change (inject_Z 1) with 1%Q in *.
            assert (C : (1 * pow2 (-30) * inject_Z Time.Second <= 1)%Q)
              by (vm_compute; discriminate).
            lra. }
          destruct (RNN_lower _ _ _ Rf Ne ltac:(lia) L) as (_ & VLf & _).
          rewrite Ve in VLf. change (inject_Z 1 * pow2 (-30))%Q with (1 # 1073741824)%Q in VLf.
          rewrite Eq. change (inject_Z 10) with 10%Q. lra. }
      destruct (RNN_lower _ _ _ Rs NL ltac:(lia) X) as (_ & VS & NS).
      split; [intros _; exact Gt | intros _].
      unfold Float64.ltb. apply normal_ltb_value; [exact N10 | exact NS |]. rewrite V10.
      rewrite VL' in VS. lra.
Qed.

(* ================================================================= *)
(** * Facts about the loop body *)

Lemma Sub_in_range (t u : Time.Time) : Int64.in_range (Time.Sub t u).
Proof.
  unfold Time.Sub, Time.minDuration, Time.maxDuration, Int64.in_range.
  destruct (Z.ltb_spec (t - u) Int64.min_int); [unfold Int64.min_int, Int64.max_int; lia|].
  destruct (Z.ltb_spec Int64.max_int (t - u)); [unfold Int64.min_int, Int64.max_int; lia|].
  lia.
Qed.

Lemma wrap_in_range (z : Z) : Int64.in_range (Int64.wrap z).
Proof.
  unfold Int64.in_range, Int64.wrap, Int64.min_int, Int64.max_int.
  pose proof (Z.mod_pos_bound (z + 2 ^ 63) (2 ^ 64) ltac:(reflexivity)). lia.
Qed.



Lemma enoughSignal_spec (d : PoolDecommissionInfo) (elapsed : Time.Duration) :
  Int64.in_range elapsed ->
  (enoughSignal d elapsed = true
   <-> 0 < bytesFreed d /\ 0 < initialUsed d /\ 10 * Time.Second < elapsed).
Proof.
  intros He. unfold enoughSignal.
  rewrite !andb_true_iff, !Z.ltb_lt, (Seconds_gt_10 elapsed He). tauto.
Qed.

(** The quotient of float64 conversions is monotone in the numerator. *)
Lemma progress_mono (b1 b2 u : Z) :
  0 < b1 <= b2 -> b2 < 2 ^ 64 -> 0 < u < 2 ^ 64 ->
  Float64.leb (Float64.div (Float64.of_int b1) (Float64.of_int u))
              (Float64.div (Float64.of_int b2) (Float64.of_int u)) = true.
Proof.
  intros Hb H2 Hu.
  destruct (of_int_Rounds b1 ltac:(lia)) as [R1 [N1 E1]].
  destruct (of_int_Rounds b2 ltac:(lia)) as [R2 [N2 E2]].
  destruct (of_int_Rounds u ltac:(lia)) as [Ru [Nu Eu]].
  destruct (div_Rounds _ _ N1 Nu ltac:(lia) ltac:(lia)) as [D1 _].
  destruct (div_Rounds _ _ N2 Nu ltac:(lia) ltac:(lia)) as [D2 _].
  unfold Float64.leb. apply (Rounds_mono _ _ _ _ D1 D2).
  assert (V : (F2Q (Float64.of_int b1) <= F2Q (Float64.of_int b2))%Q).
  { apply (Rounds_mono_value _ _ _ _ R1 R2). rewrite <- Zle_Qle. lia. }
  pose proof (normal_pos _ Nu) as P.
  unfold Qdiv. apply Qmult_le_compat_r; [exact V|].
  apply Qlt_le_weak, Qinv_lt_0_compat, P.
Qed.

(** The progress fraction of a pool in progress is positive. *)
Lemma progress_pos (d : PoolDecommissionInfo) :
  0 < bytesFreed d -> 0 < initialUsed d ->
  Int64.in_range (bytesFreed d) -> Int64.in_range (initialUsed d) ->
  Float64.ltb zero (progressOf d) = true.
Proof.
  intros B U [_ RB] [_ RU]. unfold Int64.max_int in *. unfold progressOf.
  destruct (of_int_Rounds (bytesFreed d) ltac:(lia)) as [_ [Nb Eb]].
  destruct (of_int_Rounds (initialUsed d) ltac:(lia)) as [_ [Nu Eu]].
  destruct (div_Rounds _ _ Nb Nu ltac:(lia) ltac:(lia)) as [R _].
  exact (normal_zero_ltb _ (proj1 (Rounds_normal _ _ R))).
Qed.

(* ================================================================= *)
(** * Whole units of a non-negative duration *)

Lemma to_int_in_range (x : float64) : Int64.in_range (Float64.to_int x).
Proof.
  unfold Float64.to_int, Float64.indefinite, Int64.in_range.
  destruct (Float64.trunc x) as [z|]; [|unfold Int64.min_int, Int64.max_int; lia].
  destruct (Z.leb_spec Int64.min_int z), (Z.leb_spec z Int64.max_int); cbn [andb];
    unfold Int64.min_int, Int64.max_int in *; lia.
Qed.

Lemma nn_to_int (f : float64) (k lo hi : Z) :
  nn_in k f -> (inject_Z lo <= F2Q f)%Q -> (F2Q f < inject_Z hi)%Q -> hi <= 2 ^ 63 ->
  Z.max 0 lo <= Float64.to_int f < hi.
Proof.
  intros [->|[N _]] L U Hhi.
  - cbn [F2Q] in *. change 0%Q with (inject_Z 0) in *.
    rewrite <- Zle_Qle in L. rewrite <- Zlt_Qlt in U.
    change (Float64.to_int (S754_zero false)) with 0. lia.
  - pose proof (to_int_floor f lo hi N L U Hhi). lia.
Qed.

Lemma units_frac (u d : Z) (fr : float64) :
  0 < u -> RNN (inject_Z (d mod u) / inject_Z u)%Q fr ->
  (0 <= F2Q fr)%Q /\ (F2Q fr <= 1)%Q.
Proof.
  intros Hu Rf. pose proof (Z.mod_pos_bound d u Hu) as Hr.
  pose proof (frac_le_1 (d mod u) u Hu Hr) as [F0 F1].
  destruct one_normal as (N1 & V1 & E1).
  destruct (RNN_upper _ _ one Rf N1 ltac:(lia) ltac:(lra)) as [_ VU].
  split; [exact (RNN_value_nonneg _ _ Rf) | lra].
Qed.

Lemma units_lower (u d : Z) :
  2 ^ 10 <= u < 2 ^ 53 -> 0 <= d <= Int64.max_int ->
  (inject_Z (d / u) <= F2Q (unitsOf u d))%Q.
Proof.
  intros Hu Hd. destruct (units_nonneg u d Hu Hd) as (fr & Rf & Rs & Ns).
  destruct (units_frac u d fr ltac:(lia) Rf) as [F0 F1].
  pose proof (Z.div_pos d u ltac:(lia) ltac:(lia)) as Hq.
  destruct (Z.eq_dec (d / u) 0) as [E|NE].
  - rewrite E. exact (RNN_value_nonneg _ _ Rs).
  - assert (Hq' : d / u < 2 ^ 53).
    { apply Z.div_lt_upper_bound; [lia|]. unfold Int64.max_int in Hd.
      change (2 ^ 63 - 1) with (2 ^ 53 * 2 ^ 10 - 1) in Hd. nia. }
    destruct (of_int_Rounds (d / u) ltac:(lia)) as [_ [N E]].
    pose proof (of_int_value (d / u) ltac:(lia)) as V.
    destruct (RNN_lower _ _ _ Rs N ltac:(lia) ltac:(lra)) as (_ & L & _). lra.
Qed.

Lemma units_upper (u d : Z) (cf cs : float64) :
  2 ^ 10 <= u < 2 ^ 53 -> 0 <= d <= Int64.max_int ->
  normal cf -> -1074 <= expo cf <= 969 ->
  (inject_Z (d mod u) / inject_Z u <= F2Q cf)%Q ->
  normal cs -> -1074 <= expo cs <= 969 ->
  (inject_Z (d / u) + F2Q cf <= F2Q cs)%Q ->
  (F2Q (unitsOf u d) <= F2Q cs)%Q.
Proof.
  intros Hu Hd Nf Ef Lf Ns Es Ls.
  destruct (units_nonneg u d Hu Hd) as (fr & Rf & Rs & _).
  destruct (RNN_upper _ _ _ Rf Nf Ef Lf) as [_ Vf].
  destruct (RNN_upper _ _ cs Rs Ns Es ltac:(lra)) as [_ Vs]. exact Vs.
Qed.

(** The fraction of a unit is at most [1 - 2^-53]. *)
Lemma frac_below (r u k : Z) :
  1 <= k <= 53 -> 0 < u -> 0 <= r -> r * 2 ^ k <= u * (2 ^ k - 1) ->
  normal (dyadic (2 ^ k - 1) (- k))
  /\ - k - 52 <= expo (dyadic (2 ^ k - 1) (- k)) <= - k
  /\ (inject_Z r / inject_Z u <= F2Q (dyadic (2 ^ k - 1) (- k)))%Q
  /\ (F2Q (dyadic (2 ^ k - 1) (- k)) == 1 - pow2 (- k))%Q.
Proof.
  intros Hk Hu Hr H.
  assert (K : 2 <= 2 ^ k).
  { change 2 with (2 ^ 1) at 1. apply Z.pow_le_mono_r; lia. }
  assert (K53 : 2 ^ k <= 2 ^ 53) by (apply Z.pow_le_mono_r; lia).
  destruct (dyadic_spec (2 ^ k - 1) (- k) ltac:(lia)) as (N & V & E).
  assert (V' : (F2Q (dyadic (2 ^ k - 1) (- k)) == 1 - pow2 (- k))%Q).
  { rewrite V. unfold Z.sub. rewrite inject_Z_plus, <- pow2_Z by lia.
    change (inject_Z (- (1))) with (- (1))%Q.
    rewrite Qmult_plus_distr_l, pow2_cancel. ring. }
  repeat split; try assumption; try lia.
  rewrite V'.
  assert (U : (0 < inject_Z u)%Q) by (change 0%Q with (inject_Z 0); rewrite <- Zlt_Qlt; lia).
  apply Qle_shift_div_r; [exact U|].
  assert (P : (0 < pow2 k)%Q) by apply pow2_pos.
  assert (C : (pow2 k * pow2 (- k) == 1)%Q) by apply pow2_cancel.
  rewrite Zle_Qle, !inject_Z_mult in H. unfold Z.sub in H.
  rewrite inject_Z_plus, <- pow2_Z in H by lia. change (inject_Z (- (1))) with (- (1))%Q in H.
  assert (X : (inject_Z r * (pow2 k * pow2 (- k))
               <= inject_Z u * (pow2 k + - (1)) * pow2 (- k))%Q).
  { rewrite Qmult_assoc. apply Qmult_le_compat_r; [exact H|].
    pose proof (pow2_pos (- k)). lra. }
  rewrite C in X.
  assert (Y : (inject_Z u * (pow2 k + - (1)) * pow2 (- k)
               == (1 - pow2 (- k)) * inject_Z u)%Q).
  { transitivity (inject_Z u * (pow2 k * pow2 (- k) - pow2 (- k)))%Q; [ring|].
    rewrite C. ring. }
  rewrite Y in X. lra.
Qed.

(** Less than one unit counts as zero units. *)
Lemma units_small (u d : Z) :
  2 ^ 10 <= u < 2 ^ 53 -> 0 <= d < u -> Float64.to_int (unitsOf u d) = 0.
Proof.
  intros Hu Hd.
  assert (Hd' : 0 <= d <= Int64.max_int) by (unfold Int64.max_int; lia).
  destruct (units_nonneg u d Hu Hd') as (fr & Rf & Rs & Ns).
  rewrite (Z.mod_small d u Hd) in *. rewrite (Z.div_small d u Hd) in *.
  destruct (frac_below d u 53 ltac:(lia) ltac:(lia) ltac:(lia)) as (N & E & L & V).
  { change (2 ^ 53 - 1) with (2 ^ 53 - 1). nia. }
  destruct (RNN_upper _ _ _ Rf N ltac:(lia) L) as [_ Vf].
  destruct (RNN_upper _ _ _ Rs N ltac:(lia)) as [_ Vs].
  { change (inject_Z 0) with 0%Q. lra. }
  pose proof (RNN_value_nonneg _ _ Rs) as V0.
  assert (P : (0 < pow2 (Z.opp 53))%Q) by apply pow2_pos.
  pose proof (nn_to_int (unitsOf u d) 200 0 1 Ns) as T.
  change (inject_Z 0) with 0%Q in T. change (inject_Z 1) with 1%Q in T.
  specialize (T V0 ltac:(lra) ltac:(lia)). lia.
Qed.

(** In general the count is the exact quotient, or one more. *)
Lemma units_to_int (u d : Z) :
  2 ^ 10 <= u < 2 ^ 53 -> 0 <= d <= Int64.max_int ->
  d / u <= Float64.to_int (unitsOf u d) <= d / u + 1.
Proof.
  intros Hu Hd.
  destruct (units_nonneg u d Hu Hd) as (fr & Rf & Rs & Ns).
  destruct (units_frac u d fr ltac:(lia) Rf) as [F0 F1].
  pose proof (units_lower u d Hu Hd) as L.
  pose proof (Z.div_pos d u ltac:(lia) ltac:(lia)) as Hq.
  assert (Hq' : d / u < 2 ^ 53).
  { apply Z.div_lt_upper_bound; [lia|]. unfold Int64.max_int in Hd.
    change (2 ^ 63 - 1) with (2 ^ 53 * 2 ^ 10 - 1) in Hd. nia. }
  destruct (of_int_Rounds (d / u + 1) ltac:(lia)) as [_ [N E]].
  pose proof (of_int_value (d / u + 1) ltac:(lia)) as V.
  rewrite inject_Z_plus in V. change (inject_Z 1) with 1%Q in V.
  destruct (RNN_upper _ _ _ Rs N ltac:(lia) ltac:(lra)) as [_ U].
  pose proof (nn_to_int (unitsOf u d) 200 (d / u) (d / u + 2) Ns L) as T.
  rewrite inject_Z_plus in T. change (inject_Z 2) with 2%Q in T.
  specialize (T ltac:(lra) ltac:(lia)). lia.
Qed.

(** When the remainder stays [2^-12] of a unit below the next unit, the
    count is the exact quotient. *)
Lemma units_exact (u d : Z) :
  2 ^ 35 <= u < 2 ^ 53 -> 0 <= d <= Int64.max_int ->
  (d mod u) * 2 ^ 12 <= u * (2 ^ 12 - 1) ->
  Float64.to_int (unitsOf u d) = d / u.
Proof.
  intros Hu Hd Hm.
  assert (Hu' : 2 ^ 10 <= u < 2 ^ 53) by lia.
  pose proof (Z.mod_pos_bound d u ltac:(lia)) as Hr.
  destruct (units_nonneg u d Hu' Hd) as (fr & Rf & Rs & Ns).
  destruct (frac_below (d mod u) u 12 ltac:(lia) ltac:(lia) ltac:(lia) Hm) as (N & E & L & V).
  pose proof (units_lower u d Hu' Hd) as Lo.
  pose proof (Z.div_pos d u ltac:(lia) ltac:(lia)) as Hq.
  assert (Hq' : d / u < 2 ^ 28).
  { apply Z.div_lt_upper_bound; [lia|]. unfold Int64.max_int in Hd.
    change (2 ^ 63 - 1) with (2 ^ 35 * 2 ^ 28 - 1) in Hd. nia. }
  destruct (dyadic_spec ((d / u + 1) * 2 ^ 12 - 1) (Z.opp 12) ltac:(lia)) as (Ns' & Vs & Es).
  assert (Vs' : (F2Q (dyadic ((d / u + 1) * 2 ^ 12 - 1) (Z.opp 12)) == inject_Z (d / u) + 1 - pow2 (Z.opp 12))%Q).
  { rewrite Vs. unfold Z.sub. rewrite inject_Z_plus, inject_Z_mult, inject_Z_plus.
    change (inject_Z (- (1))) with (- (1))%Q. change (inject_Z 1) with 1%Q.
    change (inject_Z (2 ^ 12) * pow2 (Z.opp 12))%Q with (inject_Z (2 ^ 12) * (1 # 4096))%Q.
    change (pow2 (Z.opp 12)) with (1 # 4096)%Q.
    change (inject_Z (2 ^ 12)) with 4096%Q. ring. }
  pose proof (units_upper u d _ _ Hu' Hd N ltac:(lia) L Ns' ltac:(lia)) as Up.
  rewrite Vs', V in Up. specialize (Up ltac:(lra)).
  assert (P : (0 < pow2 (Z.opp 12))%Q) by apply pow2_pos.
  pose proof (nn_to_int (unitsOf u d) 200 (d / u) (d / u + 1) Ns Lo) as T.
  rewrite inject_Z_plus in T. change (inject_Z 1) with 1%Q in T.
  specialize (T ltac:(lra) ltac:(lia)). lia.
Qed.

(** Up to [2^53] the float64 progress is below 1 exactly when fewer
    bytes were freed than were in use. *)
Lemma progress_lt_1 (d : PoolDecommissionInfo) :
  0 < bytesFreed d -> 0 < initialUsed d ->
  Int64.in_range (bytesFreed d) -> initialUsed d <= 2 ^ 53 ->
  (Float64.ltb (progressOf d) one = true <-> bytesFreed d < initialUsed d).
Proof.
  intros B U [_ RB] RU. unfold Int64.max_int in *. unfold progressOf.
  set (b := bytesFreed d) in *. set (u := initialUsed d) in *.
  destruct (of_int_Rounds b ltac:(lia)) as [Rb [Nb Eb]].
  destruct (of_int_Rounds u ltac:(lia)) as [Ru [Nu Eu]].
  destruct (div_Rounds _ _ Nb Nu ltac:(lia) ltac:(lia)) as [R _].
  pose proof (of_int_exact u ltac:(lia)) as Vu.
  destruct one_normal as (N1 & V1 & E1).
  assert (Uq : (0 < inject_Z u)%Q) by (change 0%Q with (inject_Z 0); rewrite <- Zlt_Qlt; lia).
  unfold Float64.ltb.
  rewrite (normal_ltb_value _ _ (proj1 (Rounds_normal _ _ R)) N1), V1.
  destruct (Z.lt_ge_cases b u) as [Lt|Ge].
  - split; [intros _; exact Lt | intros _].
    pose proof (of_int_exact b ltac:(lia)) as Vb.
    destruct (frac_below b u 53 ltac:(lia) ltac:(lia) ltac:(lia) ltac:(nia)) as (N & E & L & V).
    destruct (Rounds_upper _ _ _ R N ltac:(lia)) as [_ Up].
    { rewrite Vb, Vu. exact L. }
    pose proof (pow2_pos (Z.opp 53)). lra.
  - split; [intros H; exfalso | lia].
    assert (Vb : (inject_Z u <= F2Q (Float64.of_int b))%Q).
    { rewrite <- Vu. apply (Rounds_mono_value _ _ _ _ Ru Rb). rewrite <- Zle_Qle. lia. }
    destruct (Rounds_lower _ _ _ R N1 ltac:(lia)) as [_ Lo].
    { rewrite V1, Vu. apply Qle_shift_div_l; [exact Uq | lra]. }
    lra.
Qed.

(* ================================================================= *)
(** * [formatDuration] *)

Lemma sprintf_d_head (n : Z) :
  0 < n -> exists c s, sprintf_d n = String c s /\ c <> "<"%char.
Proof.
  intros H. destruct n as [|p|p]; try lia.
  unfold sprintf_d. cbn [Z.to_int NilZero.string_of_int].
  unfold NilZero.string_of_uint.
  destruct (Pos.to_uint p); cbn; eexists _, _; split; try reflexivity; discriminate.
Qed.

Lemma concat_head (c : ascii) (s : string) (l : list string) :
  exists s', String.concat " " (String c s :: l) = String c s'.
Proof.
  destruct l; cbn; eexists; reflexivity.
Qed.

Lemma part_head (n : Z) (unit : string) (l : list string) :
  0 < n -> String.concat " " ((sprintf_d n ++ unit)%string :: l) <> "< 1m"%string.
Proof.
  intros H. destruct (sprintf_d_head n H) as (c & s & -> & Hc).
  cbn [String.append]. destruct (concat_head c (s ++ unit) l) as (s' & ->).
  intros E. inversion E. contradiction.
Qed.

Lemma compact_sentinel (a b c : Z) :
  0 <= a -> 0 <= b -> 0 <= c ->
  (compact a b c = "< 1m"%string <-> a = 0 /\ b = 0 /\ c = 0).
Proof.
  intros Ha Hb Hc. unfold compact.
  destruct (Z.eqb_spec a 0) as [->|Na].
  - destruct (Z.eqb_spec b 0) as [->|Nb].
    + destruct (Z.eqb_spec c 0) as [->|Nc]; cbn [app].
      * tauto.
      * split; [|lia]. intros E. exfalso. revert E. apply part_head. lia.
    + cbn [app]. split; [|lia]. intros E. exfalso. revert E. apply part_head. lia.
  - cbn [app]. split; [|lia]. intros E. exfalso. revert E. apply part_head. lia.
Qed.

Lemma formatDuration_compact (d : Time.Duration) :
  0 <= Float64.to_int (Time.Hours d) -> 0 <= Float64.to_int (Time.Minutes d) ->
  formatDuration d
  = compact (Float64.to_int (Time.Hours d) / 24) (Float64.to_int (Time.Hours d) mod 24)
      (Float64.to_int (Time.Minutes d) mod 60).
Proof.
  intros HH HM. unfold formatDuration, compact.
  pose proof (to_int_in_range (Time.Hours d)) as RH.
  set (H := Float64.to_int (Time.Hours d)) in *.
  set (Mi := Float64.to_int (Time.Minutes d)) in *.
  unfold Int64.quot, Int64.rem.
  rewrite Z.quot_div_nonneg, !Z.rem_mod_nonneg by lia.
  assert (0 <= H / 24 <= H) by (split; [apply Z.div_pos; lia | apply Z.div_le_upper_bound; lia]).
  rewrite wrap_id by (unfold Int64.in_range, Int64.min_int, Int64.max_int in *; lia).
  pose proof (Z.mod_pos_bound H 24 ltac:(lia)).
  pose proof (Z.mod_pos_bound Mi 60 ltac:(lia)).
  destruct (Z.eqb_spec (H / 24) 0) as [->|]; destruct (Z.eqb_spec (H mod 24) 0) as [->|];
    destruct (Z.eqb_spec (Mi mod 60) 0) as [->|];
    repeat match goal with
           | |- context [0 <? ?x] =>
               let E := fresh in
               destruct (Z.ltb_spec 0 x) as [E|E]; [|try lia]
           end; try lia; reflexivity.
Qed.

Lemma formatDuration_nonpos (d : Time.Duration) :
  Float64.to_int (Time.Hours d) <= 0 -> Float64.to_int (Time.Minutes d) <= 0 ->
  formatDuration d = "< 1m"%string.
Proof.
  intros HH HM. unfold formatDuration.
  pose proof (to_int_in_range (Time.Hours d)) as RH.
  set (H := Float64.to_int (Time.Hours d)) in *.
  set (Mi := Float64.to_int (Time.Minutes d)) in *.
  unfold Int64.quot, Int64.rem.
  assert (Q : Z.quot H 24 = - ((- H) / 24)).
  { rewrite <- Z.quot_div_nonneg by lia. rewrite Z.quot_opp_l by lia. lia. }
  assert (R : Z.rem H 24 = - ((- H) mod 24)).
  { rewrite <- Z.rem_mod_nonneg by lia. rewrite Z.rem_opp_l by lia. lia. }
  assert (R' : Z.rem Mi 60 = - ((- Mi) mod 60)).
  { rewrite <- Z.rem_mod_nonneg by lia. rewrite Z.rem_opp_l by lia. lia. }
  pose proof (Z.div_pos (- H) 24 ltac:(lia) ltac:(lia)).
  assert ((- H) / 24 <= - H) by (apply Z.div_le_upper_bound; lia).
  pose proof (Z.mod_pos_bound (- H) 24 ltac:(lia)).
  pose proof (Z.mod_pos_bound (- Mi) 60 ltac:(lia)).
  rewrite Q, R, R'.
  rewrite wrap_id by (unfold Int64.in_range, Int64.min_int, Int64.max_int in *; lia).
  destruct (Z.ltb_spec 0 (- (- H / 24))); [lia|].
  destruct (Z.ltb_spec 0 (- (- H mod 24))); [lia|].
  destruct (Z.ltb_spec 0 (- (- Mi mod 60))); [lia|].
  reflexivity.
Qed.

Lemma unit_ranges :
  2 ^ 35 <= Time.Minute < 2 ^ 53 /\ 2 ^ 35 <= Time.Hour < 2 ^ 53
  /\ Time.Hour = 60 * Time.Minute /\ Time.Minute = 60 * Time.Second
  /\ Time.Second = 1000000000.
Proof. cbv. repeat split; try discriminate; reflexivity. Qed.

(** The minutes of a duration of one minute or more, under an hour. *)
Lemma minutes_under_hour (d : Time.Duration) :
  Time.Minute <= d < Time.Hour ->
  1 <= Float64.to_int (Time.Minutes d) <= 59.
Proof.
  intros Hd. rewrite Minutes_units.
  destruct unit_ranges as (UM & UH & EH & EM & ES).
  assert (Hu : 2 ^ 10 <= Time.Minute < 2 ^ 53) by lia.
  assert (Hd' : 0 <= d <= Int64.max_int) by (unfold Int64.max_int; lia).
  destruct (units_nonneg _ d Hu Hd') as (fr & Rf & Rs & Ns).
  pose proof (Z.mod_pos_bound d Time.Minute ltac:(lia)) as Hr.
  pose proof (Z.div_mod d Time.Minute ltac:(lia)) as DM.
  assert (Hq : 1 <= d / Time.Minute <= 59).
  { split; [apply Z.div_le_lower_bound; lia|].
    assert (d / Time.Minute < 60) by (apply Z.div_lt_upper_bound; lia). lia. }
  pose proof (units_lower _ d Hu Hd') as Lo.
  destruct (frac_below (d mod Time.Minute) Time.Minute 36 ltac:(lia) ltac:(lia) ltac:(lia))
    as (N & E & L & V).
  { rewrite EM, ES in *. lia. }
  destruct (dyadic_spec (60 * 2 ^ 36 - 1) (Z.opp 36) ltac:(cbv; split; reflexivity))
    as (Ns' & Vs & Es).
  assert (Vs' : (F2Q (dyadic (60 * 2 ^ 36 - 1) (Z.opp 36)) == 60 - pow2 (Z.opp 36))%Q).
  { rewrite Vs. reflexivity. }
  pose proof (units_upper _ d _ _ Hu Hd' N ltac:(lia) L Ns' ltac:(lia)) as Up.
  rewrite Vs', V in Up.
  assert (Q59 : (inject_Z (d / Time.Minute) <= 59)%Q)
    by (change 59%Q with (inject_Z 59); rewrite <- Zle_Qle; lia).
  assert (Q1 : (1 <= inject_Z (d / Time.Minute))%Q)
    by (change 1%Q with (inject_Z 1); rewrite <- Zle_Qle; lia).
  specialize (Up ltac:(lra)).
  assert (P : (0 < pow2 (Z.opp 36))%Q) by apply pow2_pos.
  pose proof (nn_to_int (unitsOf Time.Minute d) 200 1 60 Ns) as T.
  change (inject_Z 1) with 1%Q in T. change (inject_Z 60) with 60%Q in T.
  specialize (T ltac:(lra) ltac:(lra) ltac:(lia)). lia.
Qed.

(** The sentinel is returned exactly below one minute. *)
Lemma formatDuration_sentinel (d : Time.Duration) :
  0 <= d <= Int64.max_int ->
  (formatDuration d = "< 1m"%string <-> d < Time.Minute).
Proof.
  intros Hd. destruct unit_ranges as (UM & UH & EH & EM & ES).
  assert (HuM : 2 ^ 10 <= Time.Minute < 2 ^ 53) by lia.
  assert (HuH : 2 ^ 10 <= Time.Hour < 2 ^ 53) by lia.
  pose proof (units_to_int _ d HuH Hd) as BH. rewrite <- Hours_units in BH.
  pose proof (units_to_int _ d HuM Hd) as BM. rewrite <- Minutes_units in BM.
  pose proof (Z.div_pos d Time.Hour ltac:(lia) ltac:(lia)).
  pose proof (Z.div_pos d Time.Minute ltac:(lia) ltac:(lia)).
  rewrite formatDuration_compact by lia.
  set (hh := Float64.to_int (Time.Hours d)) in *.
  set (mi := Float64.to_int (Time.Minutes d)) in *.
  pose proof (Z.mod_pos_bound hh 24 ltac:(lia)).
  pose proof (Z.mod_pos_bound mi 60 ltac:(lia)).
  pose proof (Z.div_pos hh 24 ltac:(lia) ltac:(lia)).
  rewrite compact_sentinel by lia.
  destruct (Z.lt_ge_cases d Time.Minute) as [Small|Big].
  - assert (EH0 : hh = 0).
    { unfold hh. rewrite Hours_units. apply units_small; lia. }
    assert (EM0 : mi = 0).
    { unfold mi. rewrite Minutes_units. apply units_small; lia. }
    rewrite EH0, EM0. cbn. tauto.
  - split; [|lia]. intros (A & B & C). exfalso.
    pose proof (Z.div_mod hh 24 ltac:(lia)) as DH.
    assert (hh = 0) by lia.
    destruct (Z.lt_ge_cases d Time.Hour) as [Lt|Ge].
    + pose proof (minutes_under_hour d ltac:(lia)) as M. fold mi in M.
      rewrite Z.mod_small in C by lia. lia.
    + assert (1 <= d / Time.Hour) by (apply Z.div_le_lower_bound; lia). lia.
Qed.

(** For a whole number of seconds the components are the exact ones. *)
Lemma formatDuration_whole_seconds (d : Time.Duration) :
  0 <= d <= Int64.max_int -> d mod Time.Second = 0 ->
  formatDuration d
  = compact (d / (24 * Time.Hour)) ((d / Time.Hour) mod 24) ((d / Time.Minute) mod 60).
Proof.
  intros Hd Hs. destruct unit_ranges as (UM & UH & EH & EM & ES).
  assert (EHH : Float64.to_int (Time.Hours d) = d / Time.Hour).
  { rewrite Hours_units. apply units_exact; [lia | lia |].
    pose proof (Z.mod_pos_bound d Time.Hour ltac:(lia)) as Hr.
    pose proof (Z.div_mod d Time.Hour ltac:(lia)) as DM.
    pose proof (Z.div_mod d Time.Second ltac:(lia)) as DS.
    assert (X : (d mod Time.Hour) mod Time.Second = 0).
    { rewrite (Z.mod_eq d Time.Hour) by lia.
      replace (d - Time.Hour * (d / Time.Hour))
        with (d + (- (3600 * (d / Time.Hour))) * Time.Second) by lia.
      rewrite Z.mod_add by lia. exact Hs. }
    pose proof (Z.div_mod (d mod Time.Hour) Time.Second ltac:(lia)) as DX.
    rewrite X in DX. rewrite EH, EM, ES in *. lia. }
  assert (EMM : Float64.to_int (Time.Minutes d) = d / Time.Minute).
  { rewrite Minutes_units. apply units_exact; [lia | lia |].
    pose proof (Z.mod_pos_bound d Time.Minute ltac:(lia)) as Hr.
    assert (X : (d mod Time.Minute) mod Time.Second = 0).
    { rewrite (Z.mod_eq d Time.Minute) by lia.
      replace (d - Time.Minute * (d / Time.Minute))
        with (d + (- (60 * (d / Time.Minute))) * Time.Second) by lia.
      rewrite Z.mod_add by lia. exact Hs. }
    pose proof (Z.div_mod (d mod Time.Minute) Time.Second ltac:(lia)) as DX.
    rewrite X in DX. rewrite EM, ES in *. lia. }
  pose proof (Z.div_pos d Time.Hour ltac:(lia) ltac:(lia)).
  pose proof (Z.div_pos d Time.Minute ltac:(lia) ltac:(lia)).
  rewrite formatDuration_compact by lia. rewrite EHH, EMM.
  rewrite Z.div_div by lia. rewrite (Z.mul_comm Time.Hour 24). reflexivity.
Qed.

Lemma formatDuration_negative (d : Time.Duration) :
  Int64.min_int <= d < 0 -> formatDuration d = "< 1m"%string.
Proof.
  intros Hd. destruct unit_ranges as (UM & UH & EH & EM & ES).
  apply formatDuration_nonpos.
  - rewrite Hours_units. apply nonpos_to_int, units_nonpos; lia.
  - rewrite Minutes_units. apply nonpos_to_int, units_nonpos; lia.
Qed.

(** The counts go through float64: just under a multiple of an hour,
    far enough from zero, [d.Hours()] rounds up to the next integer
    while [d.Minutes()] does not. *)
Example formatDuration_rounding :
  formatDuration (4097 * Time.Hour - 1) = "170d 17h 59m"%string
  /\ (4097 * Time.Hour - 1) / Time.Hour = 4096.
Proof. split; vm_compute; reflexivity. Qed.

(** Above [2^53] bytes the conversion to float64 is no longer exact:
    with one byte left of [2^53 + 1] the fraction is already 1. *)
Example progress_rounds_to_one :
  let d := mkDecom 1000 0 (2 ^ 53 + 1) (2 ^ 53) false false false in
  bytesFreed d < initialUsed d /\ progressOf d = one /\ showsETA d = false.
Proof. repeat split; vm_compute; reflexivity. Qed.

(* ================================================================= *)
(** * Multiplication and subtraction *)

Lemma mul_Rounds (a b : float64) :
  normal a -> normal b -> -400 <= expo a <= 400 -> -400 <= expo b <= 400 ->
  Rounds (F2Q a * F2Q b)%Q (Float64.mul a b)
  /\ expo a + expo b + 52 <= expo (Float64.mul a b) <= expo a + expo b + 54.
Proof.
  intros (ma & ea & -> & Ha) (mb & eb & -> & Hb) Ea Eb. cbn [expo] in *.
  unfold Float64.mul, SFmul, Float64.prec, Float64.emax. cbn [xorb].
  assert (L : 2 ^ 104 <= Zpos (ma * mb)).
  { rewrite Pos2Z.inj_mul. change (2 ^ 104) with (2 ^ 52 * 2 ^ 52). nia. }
  assert (U : Zpos (ma * mb) < 2 ^ 106).
  { rewrite Pos2Z.inj_mul. change (2 ^ 106) with (2 ^ 53 * 2 ^ 53). nia. }
  pose proof (digits2_ge _ 104 L) as D1. pose proof (digits2_le _ 106 U) as D2.
  destruct (binary_round_aux_rounds false (ma * mb) (ea + eb) loc_Exact
              (F2Q (S754_finite false ma ea) * F2Q (S754_finite false mb eb))%Q)
    as (m & l & C & ->); try lia.
  - cbn [Bracket]. rewrite !F2Q_finite, Pos2Z.inj_mul, inject_Z_mult.
    replace (- (ea + eb)) with (- ea + - eb) by lia. rewrite pow2_add.
    pose proof (pow2_cancel ea) as Ca. pose proof (pow2_cancel eb) as Cb.
    transitivity (inject_Z (Zpos ma) * inject_Z (Zpos mb)
                  * (pow2 ea * pow2 (- ea)) * (pow2 eb * pow2 (- eb)))%Q; [ring|].
    rewrite Ca, Cb. ring.
  - split.
    + exists m, l, (Zpos (digits2_pos (ma * mb)) + (ea + eb) - 53).
      split; [exact C|]. split; [lia | reflexivity].
    + destruct C as [Hm _].
      pose proof (rounded_normal m l (Zpos (digits2_pos (ma * mb)) + (ea + eb) - 53) Hm). lia.
Qed.

Lemma sub_RNN (a b : float64) :
  normal a -> normal b -> -500 <= expo a <= 500 -> -500 <= expo b <= 500 ->
  (F2Q b <= F2Q a)%Q ->
  RNN (F2Q a - F2Q b)%Q (Float64.sub a b) /\ nn_in 600 (Float64.sub a b).
Proof.
  intros (ma & ea & -> & Ha) (mb & eb & -> & Hb) Ea Eb V. cbn [expo] in *.
  unfold Float64.sub, SFsub, Float64.prec, Float64.emax. cbn [cond_Zopp].
  set (ez := Z.min ea eb).
  pose proof (shl_align_fst ma ea ez ltac:(lia)) as Sa.
  pose proof (shl_align_fst mb eb ez ltac:(lia)) as Sb.
  set (pa := fst (shl_align ma ea ez)) in *. set (pb := fst (shl_align mb eb ez)) in *.
  assert (Ka : 0 < 2 ^ (ea - ez)) by (apply Z.pow_pos_nonneg; lia).
  assert (Kb : 0 < 2 ^ (eb - ez)) by (apply Z.pow_pos_nonneg; lia).
  assert (X : (inject_Z (Zpos pa - Zpos pb) * pow2 ez
               == F2Q (S754_finite false ma ea) - F2Q (S754_finite false mb eb))%Q).
  { rewrite !F2Q_finite. unfold Z.sub. rewrite inject_Z_plus, inject_Z_opp, Sa, Sb.
    rewrite !inject_Z_mult, <- !pow2_Z by lia.
    transitivity (inject_Z (Zpos ma) * (pow2 (ea - ez) * pow2 ez)
                  - inject_Z (Zpos mb) * (pow2 (eb - ez) * pow2 ez))%Q; [ring|].
    rewrite !pow2_sub. reflexivity. }
  assert (M0 : 0 <= Zpos pa - Zpos pb).
  { pose proof (pow2_pos ez) as P.
    destruct (Z.le_gt_cases 0 (Zpos pa - Zpos pb)) as [|G]; [assumption|exfalso].
    assert (inject_Z (Zpos pa - Zpos pb) < 0)%Q
      by (change 0%Q with (inject_Z 0); rewrite <- Zlt_Qlt; lia).
    assert (inject_Z (Zpos pa - Zpos pb) * pow2 ez < 0 * pow2 ez)%Q
      by (apply Qmult_lt_compat_r; assumption).
    lra. }
  destruct (Zpos pa - Zpos pb) as [|pm|pm] eqn:EM; try lia.
  - cbn [binary_normalize]. split; [left; split; [|reflexivity] | left; reflexivity].
    rewrite <- X. change (inject_Z 0) with 0%Q. ring.
  - cbn [binary_normalize].
    assert (EM' : 2 ^ (ea - ez) <= 2 ^ (ea - ez)) by lia.
    assert (U : Zpos pm < 2 ^ (53 + (ea - ez))).
    { rewrite Z.pow_add_r by lia. nia. }
    pose proof (digits2_le pm _ U) as D.
    assert (D0 : 1 <= Zpos (digits2_pos pm)) by lia.
    destruct (binary_round_Rounds pm ez ltac:(lia)) as [R E]. split.
    + right. eapply Rounds_ext; [|exact R]. exact X.
    + right. split; [apply (Rounds_normal _ _ R) | lia].
Qed.

(* ================================================================= *)
(** * More than ten seconds elapsed, progress below one *)

Lemma Seconds_normal (d : Time.Duration) :
  10 * Time.Second < d <= Int64.max_int ->
  normal_in 200 (Time.Seconds d) /\ (10 < F2Q (Time.Seconds d))%Q.
Proof.
  intros Hd.
  assert (R : Int64.in_range d)
    by (unfold Int64.in_range, Int64.min_int, Int64.max_int, Time.Second in *; lia).
  pose proof (proj2 (Seconds_gt_10 d R) (proj1 Hd)) as G.
  rewrite Seconds_units in *.
  destruct (units_nonneg Time.Second d) as (fr & _ & _ & Ns).
  { cbv. split; [discriminate | reflexivity]. }
  { unfold Time.Second in *. lia. }
  destruct ten_normal as (N10 & V10 & E10).
  destruct Ns as [Z|[N E]].
  - rewrite Z in G. discriminate G.
  - split; [split; assumption|].
    rewrite <- V10. apply normal_ltb_value; assumption.
Qed.

Lemma progress_normal (d : PoolDecommissionInfo) :
  0 < bytesFreed d -> 0 < initialUsed d ->
  Rounds (F2Q (Float64.of_int (bytesFreed d)) / F2Q (Float64.of_int (initialUsed d)))%Q
    (progressOf d)
  /\ normal_in 157 (progressOf d).
Proof.
  intros B U.
  pose proof (wrap_in_range (CurrentSize d - StartSize d)) as [_ RB].
  pose proof (wrap_in_range (TotalSize d - StartSize d)) as [_ RU].
  fold (Int64.sub (CurrentSize d) (StartSize d)) in RB. fold (bytesFreed d) in RB.
  fold (Int64.sub (TotalSize d) (StartSize d)) in RU. fold (initialUsed d) in RU.
  unfold Int64.max_int in *. unfold progressOf.
  destruct (of_int_Rounds (bytesFreed d) ltac:(lia)) as [_ [Nb Eb]].
  destruct (of_int_Rounds (initialUsed d) ltac:(lia)) as [_ [Nu Eu]].
  destruct (div_Rounds _ _ Nb Nu ltac:(lia) ltac:(lia)) as [R E].
  split; [exact R|]. split; [apply (Rounds_normal _ _ R) | lia].
Qed.

(** The float64 conversion is monotone on positive [int64] values. *)
Lemma of_int_mono (a b : Z) :
  0 < a <= b -> b < 2 ^ 64 ->
  (F2Q (Float64.of_int a) <= F2Q (Float64.of_int b))%Q.
Proof.
  intros H Hb.
  destruct (of_int_Rounds a ltac:(lia)) as [Ra _].
  destruct (of_int_Rounds b ltac:(lia)) as [Rb _].
  apply (Rounds_mono_value _ _ _ _ Ra Rb). rewrite <- Zle_Qle. lia.
Qed.

Lemma Qdiv_ge_1 (x y : Q) : (0 < y)%Q -> (y <= x)%Q -> (1 <= x / y)%Q.
Proof. intros Hy H. apply Qle_shift_div_l; [exact Hy | lra]. Qed.

Lemma Qdiv_le_1 (x y : Q) : (0 < y)%Q -> (x <= y)%Q -> (x / y <= 1)%Q.
Proof. intros Hy H. apply Qle_shift_div_r; [exact Hy | lra]. Qed.

(** With at least as many bytes freed as were in use the fraction is at
    least one; with at most as many it is at most one. *)
Lemma progress_vs_one (d : PoolDecommissionInfo) :
  0 < bytesFreed d -> 0 < initialUsed d ->
  (initialUsed d <= bytesFreed d -> Float64.leb one (progressOf d) = true)
  /\ (bytesFreed d <= initialUsed d -> (F2Q (progressOf d) <= 1)%Q).
Proof.
  intros B U. destruct (progress_normal d B U) as [R [N E]].
  pose proof (wrap_in_range (CurrentSize d - StartSize d)) as [_ RB].
  pose proof (wrap_in_range (TotalSize d - StartSize d)) as [_ RU].
  fold (Int64.sub (CurrentSize d) (StartSize d)) in RB. fold (bytesFreed d) in RB.
  fold (Int64.sub (TotalSize d) (StartSize d)) in RU. fold (initialUsed d) in RU.
  unfold Int64.max_int in *.
  destruct one_normal as (N1 & V1 & E1).
  destruct (of_int_Rounds (initialUsed d) ltac:(lia)) as [_ [Nu _]].
  destruct (of_int_Rounds (bytesFreed d) ltac:(lia)) as [_ [Nb _]].
  pose proof (normal_pos _ Nu) as Pu. pose proof (normal_pos _ Nb) as Pb.
  split; intros H.
  - pose proof (of_int_mono _ _ (conj U H) ltac:(lia)) as M.
    destruct (Rounds_lower _ _ one R N1 ltac:(lia)) as [L _]; [|exact L].
    rewrite V1. now apply Qdiv_ge_1.
  - pose proof (of_int_mono _ _ (conj B H) ltac:(lia)) as M.
    destruct (Rounds_upper _ _ one R N1 ltac:(lia)) as [_ L]; [|lra].
    rewrite V1. now apply Qdiv_le_1.
Qed.

(* ================================================================= *)
(** * The estimate of the remaining time, the percentage *)

Lemma nn_to_int_floor (f : float64) (k : Z) :
  nn_in k f -> (F2Q f < inject_Z (2 ^ 63))%Q ->
  0 <= Float64.to_int f
  /\ (inject_Z (Float64.to_int f) <= F2Q f)%Q
  /\ (F2Q f < inject_Z (Float64.to_int f) + 1)%Q.
Proof.
  intros [->|[N _]] U.
  - change (Float64.to_int (S754_zero false)) with 0. cbn [F2Q].
    change (inject_Z 0) with 0%Q. split; [lia | split; lra].
  - assert (L : (inject_Z 0 <= F2Q f)%Q)
      by (pose proof (normal_pos _ N); change (inject_Z 0) with 0%Q; lra).
    destruct (to_int_floor f 0 (2 ^ 63) N L U ltac:(lia)) as (A & B & C).
    split; [lia | split; [exact B | exact C]].
Qed.

(** With more than ten seconds elapsed and a fraction below one,
    [etaSeconds] is zero or a positive normal number: the estimated total
    [E / P] is not below [E]. *)
Lemma eta_seconds_nn (d : PoolDecommissionInfo) (el : Time.Duration) :
  0 < bytesFreed d -> 0 < initialUsed d -> 10 * Time.Second < el <= Int64.max_int ->
  Float64.ltb (progressOf d) one = true ->
  nn_in 600 (etaSecondsOf d el).
Proof.
  intros B U Hel P1.
  destruct (Seconds_normal el Hel) as [[NS ES] GS].
  destruct (progress_normal d B U) as [RP [NP EP]].
  destruct one_normal as (N1 & V1 & E1).
  assert (VP : (F2Q (progressOf d) < 1)%Q).
  { rewrite <- V1. apply normal_ltb_value; assumption. }
  pose proof (normal_pos _ NP) as PP. pose proof (normal_pos _ NS) as PS.
  destruct (div_Rounds _ _ NS NP ltac:(lia) ltac:(lia)) as [RT ET].
  destruct (Rounds_normal _ _ RT) as [NT _].
  assert (LE : (F2Q (Time.Seconds el) <= F2Q (Time.Seconds el) / F2Q (progressOf d))%Q).
  { apply Qle_shift_div_l; [exact PP|].
    assert (F2Q (Time.Seconds el) * F2Q (progressOf d) <= F2Q (Time.Seconds el) * 1)%Q.
    { rewrite !(Qmult_comm (F2Q (Time.Seconds el))).
      apply Qmult_le_compat_r; lra. }
    lra. }
  destruct (Rounds_lower _ _ (Time.Seconds el) RT NS ltac:(lia) LE) as [_ VT].
  unfold etaSecondsOf.
  apply (sub_RNN _ _ NT NS ltac:(lia) ltac:(lia) VT).
Qed.

Lemma eta_duration (d : PoolDecommissionInfo) (el : Time.Duration) :
  0 < bytesFreed d -> 0 < initialUsed d -> 10 * Time.Second < el <= Int64.max_int ->
  Float64.ltb (progressOf d) one = true ->
  (F2Q (etaSecondsOf d el) * inject_Z Time.Second < inject_Z (2 ^ 63))%Q ->
  let n := Float64.to_int (etaSecondsOf d el) in
  0 <= n /\ n * Time.Second <= Int64.max_int
  /\ etaDurationOf d el = n * Time.Second
  /\ (inject_Z n <= F2Q (etaSecondsOf d el))%Q
  /\ (F2Q (etaSecondsOf d el) < inject_Z n + 1)%Q.
Proof.
  intros B U Hel P1 Fit n.
  pose proof (eta_seconds_nn d el B U Hel P1) as NN.
  assert (V0 : (0 <= F2Q (etaSecondsOf d el))%Q).
  { destruct NN as [->|[N _]]; [cbn [F2Q]; lra | pose proof (normal_pos _ N); lra]. }
  change (inject_Z Time.Second) with (1000000000 # 1)%Q in Fit.
  assert (U63 : (F2Q (etaSecondsOf d el) < inject_Z (2 ^ 63))%Q) by lra.
  destruct (nn_to_int_floor _ _ NN U63) as (N0 & Lo & Hi). fold n in N0, Lo, Hi.
  assert (Fits : n * Time.Second < 2 ^ 63).
  { rewrite Zlt_Qlt, inject_Z_mult.
    change (inject_Z Time.Second) with (1000000000 # 1)%Q. lra. }
  split; [exact N0 | split; [| split; [| split; [exact Lo | exact Hi]]]].
  - unfold Int64.max_int. lia.
  - unfold etaDurationOf, Int64.mul. fold n. apply wrap_id.
    unfold Int64.in_range, Int64.min_int, Int64.max_int, Time.Second in *. lia.
Qed.

(** The percentage [progress * 100] of an in-progress pool. *)
Lemma percent_range (d : PoolDecommissionInfo) :
  0 < bytesFreed d -> 0 < initialUsed d ->
  Float64.ltb zero (Float64.mul (progressOf d) (Float64.of_int 100)) = true
  /\ (bytesFreed d <= initialUsed d ->
      Float64.leb (Float64.mul (progressOf d) (Float64.of_int 100))
        (Float64.of_int 100) = true)
  /\ (initialUsed d <= bytesFreed d ->
      Float64.leb (Float64.of_int 100)
        (Float64.mul (progressOf d) (Float64.of_int 100)) = true).
Proof.
  intros B U. destruct (progress_normal d B U) as [RP [NP EP]].
  destruct (of_int_Rounds 100 ltac:(lia)) as [_ [N100 E100]].
  pose proof (of_int_value 100 ltac:(lia)) as V100.
  change (inject_Z 100) with 100%Q in V100.
  destruct (mul_Rounds _ _ NP N100 ltac:(lia) ltac:(lia)) as [RM _].
  destruct (Rounds_normal _ _ RM) as [NM _].
  destruct (progress_vs_one d B U) as [Ge Le].
  destruct one_normal as (N1 & V1 & E1).
  split; [|split].
  - apply normal_zero_ltb. exact NM.
  - intros H. specialize (Le H).
    apply (Rounds_upper _ _ _ RM N100 ltac:(lia)). rewrite V100.
    assert (F2Q (progressOf d) * 100 <= 1 * 100)%Q by (apply Qmult_le_compat_r; lra).
    lra.
  - intros H. specialize (Ge H).
    assert (V : (1 <= F2Q (progressOf d))%Q).
    { rewrite <- V1. apply normal_leb_value; assumption. }
    apply (Rounds_lower _ _ _ RM N100 ltac:(lia)). rewrite V100.
    assert (1 * 100 <= F2Q (progressOf d) * 100)%Q by (apply Qmult_le_compat_r; lra).
    lra.
Qed.

(* ================================================================= *)
(** * [int64] subtraction of the counters *)

Lemma wrap_congr (a b k : Z) : a = b + 2 ^ 64 * k -> Int64.wrap a = Int64.wrap b.
Proof.
  intros ->. unfold Int64.wrap.
  replace (b + 2 ^ 64 * k + 2 ^ 63) with (b + 2 ^ 63 + k * 2 ^ 64) by lia.
  rewrite Z.mod_add by lia. reflexivity.
Qed.

Lemma wrap_eq (a : Z) : exists k, Int64.wrap a = a + 2 ^ 64 * k.
Proof.
  exists (- ((a + 2 ^ 63) / 2 ^ 64)). unfold Int64.wrap.
  rewrite Z.mod_eq by lia. lia.
Qed.

(* ================================================================= *)
(** * Minutes of a whole number of seconds *)

Lemma formatDuration_by_minutes (d : Time.Duration) :
  0 <= d <= Int64.max_int -> d mod Time.Second = 0 ->
  formatDuration d
  = compact (d / Time.Minute / 1440) ((d / Time.Minute / 60) mod 24)
      ((d / Time.Minute) mod 60).
Proof.
  intros Hd Hs. rewrite (formatDuration_whole_seconds d Hd Hs).
  destruct unit_ranges as (UM & UH & EH & EM & ES).
  rewrite !Z.div_div by lia.
  replace (24 * Time.Hour) with (Time.Minute * 1440) by lia.
  replace Time.Hour with (Time.Minute * 60) at 1 by lia. reflexivity.
Qed.

(* ================================================================= *)
(** * Running the loop *)

Lemma skipn_length_app {A} (l l' : list A) : skipn (List.length l) (l ++ l') = l'.
Proof.
  induction l as [|a l IH]; simpl; auto.
Qed.

Lemma World_eta (w : World) :
  w = mkWorld (clock w) (reads w) (stdout w) (divisors w).
Proof. now destruct w. Qed.

Lemma etaBlock_run (d : PoolDecommissionInfo) (elapsed : Time.Duration) (w : World) :
  etaBlock elapsed (progressOf d) w =
  (tt, mkWorld (clock w)
         (if showsETA d then S (reads w) else reads w)
         (stdout w ++ etaLines d elapsed (clock w (reads w)))
         (divisors w ++ (if showsETA d then [progressOf d] else []))).
Proof.
  unfold etaBlock, etaLines, showsETA.
  destruct (Float64.gtb (progressOf d) zero && Float64.ltb (progressOf d) (Float64.of_int 1)) eqn:E.
  - fold one in E. rewrite E. reflexivity.
  - fold one in E. rewrite E. unfold ret. rewrite !app_nil_r. now destruct w.
Qed.

Lemma progressBlock_run (d : PoolDecommissionInfo) (elapsed : Time.Duration) (w : World) :
  progressBlock d elapsed w =
  (tt, mkWorld (clock w)
         (if showsETA d then S (reads w) else reads w)
         (stdout w ++ progressLines d elapsed (clock w (reads w)))
         (divisors w ++ progressDivisors d elapsed)).
Proof.
  unfold progressBlock, bind, fdiv, print. cbn [clock reads stdout divisors].
  fold (progressOf d). rewrite etaBlock_run. cbn [clock reads stdout divisors].
  unfold progressLines, progressDivisors.
  repeat rewrite <- app_assoc. reflexivity.
Qed.

Lemma iteration_skipped (pool : PoolStatus) (hd : bool) (w : World) :
  skipped pool = true -> iteration pool hd w = (hd, w).
Proof.
  unfold skipped, iteration. destruct (Decommission pool) as [d|]; [|reflexivity].
  destruct (Time.IsZero (StartTime d)); [reflexivity|]. cbn [orb].
  intros ->. reflexivity.
Qed.

Lemma iteration_draining (pool : PoolStatus) (d : PoolDecommissionInfo)
  (hd : bool) (w : World) :
  Decommission pool = Some d -> skipped pool = false ->
  let t1 := clock w (reads w) in
  let t2 := clock w (S (reads w)) in
  let t3 := clock w (S (S (reads w))) in
  iteration pool hd w =
  (true, mkWorld (clock w) (poolReads d t1 + reads w)
           (stdout w ++ poolLines pool d t1 t2 t3)
           (divisors w ++ poolDivisors d t1)).
Proof.
  intros HD HS. unfold skipped in HS. rewrite HD in HS.
  apply orb_false_iff in HS. destruct HS as [HZ HF].
  unfold iteration. rewrite HD, HZ, HF.
  unfold poolLines, poolDivisors, poolReads.
  unfold bind, print, Since, Now, ret, bind. cbn [clock reads stdout divisors].
  destruct (enoughSignal d (Time.Sub (clock w (reads w)) (StartTime d))) eqn:E.
  - rewrite progressBlock_run. cbn [clock reads stdout divisors andb].
    repeat rewrite <- app_assoc. cbn [app].
    destruct (showsETA d); reflexivity.
  - unfold print. cbn [clock reads stdout divisors andb].
    repeat rewrite <- app_assoc. cbn [app]. rewrite app_nil_r. reflexivity.
Qed.

Lemma printed_draining (pool : PoolStatus) (d : PoolDecommissionInfo)
  (hd : bool) (w : World) :
  Decommission pool = Some d -> skipped pool = false ->
  printed (iteration pool hd) w =
  poolLines pool d (clock w (reads w)) (clock w (S (reads w)))
    (clock w (S (S (reads w)))).
Proof.
  intros HD HS. unfold printed. rewrite (iteration_draining pool d hd w HD HS).
  cbn [snd stdout]. apply skipn_length_app.
Qed.


Lemma loop_all_skipped (pools : list PoolStatus) (hd : bool) (w : World) :
  Forall (fun p => skipped p = true) pools -> loop pools hd w = (hd, w).
Proof.
  induction 1 as [|p ps Hp _ IH]; [reflexivity|].
  cbn [loop]. unfold bind. rewrite (iteration_skipped p hd w Hp). exact IH.
Qed.


(* ================================================================= *)
(** * The loop over all pools *)

Lemma iteration_run (pool : PoolStatus) (hd : bool) (w : World) :
  iteration pool hd w =
  (hd || draining pool,
   mkWorld (clock w) (readsAfter (clock w) (reads w) pool)
     (stdout w ++ linesOf (clock w) (reads w) pool)
     (divisors w ++ divisorsOf (clock w) (reads w) pool)).
Proof.
  unfold draining, linesOf, divisorsOf, readsAfter.
  destruct (skipped pool) eqn:S.
  - rewrite (iteration_skipped pool hd w S). cbn [negb]. rewrite orb_false_r.
    destruct (Decommission pool); rewrite !app_nil_r; now destruct w.
  - destruct (Decommission pool) as [d|] eqn:D.
    + rewrite (iteration_draining pool d hd w D S). cbn [negb].
      rewrite orb_true_r. reflexivity.
    + unfold skipped in S. rewrite D in S. discriminate S.
Qed.

Lemma loop_run (pools : list PoolStatus) : forall (hd : bool) (w : World),
  loop pools hd w =
  (hd || existsb draining pools,
   mkWorld (clock w) (loopReads (clock w) (reads w) pools)
     (stdout w ++ loopLines (clock w) (reads w) pools)
     (divisors w ++ loopDivisors (clock w) (reads w) pools)).
Proof.
  induction pools as [|p ps IH]; intros hd w.
  - cbn. rewrite orb_false_r, !app_nil_r. now destruct w.
  - cbn [loop]. unfold bind. rewrite iteration_run, IH.
    cbn [clock reads stdout divisors existsb loopReads loopLines loopDivisors].
    rewrite !app_assoc, orb_assoc. reflexivity.
Qed.

Lemma report_run (pools : list PoolStatus) (w : World) :
  report pools w =
  (tt,
   mkWorld (clock w) (loopReads (clock w) (reads w) pools)
     (stdout w ++ loopLines (clock w) (reads w) pools
        ++ (if existsb draining pools then [] else [LNoPools]))
     (divisors w ++ loopDivisors (clock w) (reads w) pools)).
Proof.
  unfold report, bind. rewrite loop_run. cbn [orb].
  destruct (existsb draining pools); cbn [negb].
  - unfold ret. rewrite app_nil_r. reflexivity.
  - unfold print. cbn [clock reads stdout divisors]. rewrite app_assoc. reflexivity.
Qed.

Lemma printed_report (pools : list PoolStatus) (w : World) :
  printed (report pools) w
  = loopLines (clock w) (reads w) pools
    ++ (if existsb draining pools then [] else [LNoPools]).
Proof.
  unfold printed. rewrite report_run. cbn [snd stdout]. apply skipn_length_app.
Qed.

Lemma loop_filter (pools : list PoolStatus) : forall (hd : bool) (w : World),
  loop pools hd w = loop (filter draining pools) hd w.
Proof.
  induction pools as [|p ps IH]; intros hd w; [reflexivity|].
  cbn [filter]. unfold draining at 1. destruct (skipped p) eqn:S; cbn [negb].
  - cbn [loop]. unfold bind. rewrite (iteration_skipped p hd w S). apply IH.
  - cbn [loop]. unfold bind. destruct (iteration p hd w) as [hd' w']. apply IH.
Qed.

(** The lines of one pool, by kind. *)
Lemma poolLines_kinds (pool : PoolStatus) (d : PoolDecommissionInfo)
  (t1 t2 t3 : Time.Time) :
  filter isHeader (poolLines pool d t1 t2 t3) = [headerOf pool]
  /\ filter isBlank (poolLines pool d t1 t2 t3) = [LBlank]
  /\ filter isNoPools (poolLines pool d t1 t2 t3) = []
  /\ (2 + List.length (filter isETA (poolLines pool d t1 t2 t3)))%nat = poolReads d t1.
Proof.
  unfold poolLines, poolReads, progressLines, etaLines, headerOf.
  destruct (enoughSignal d (Time.Sub t1 (StartTime d))); cbn [andb];
    [destruct (showsETA d)|]; repeat split; reflexivity.
Qed.

Lemma linesOf_kinds (c : nat -> Time.Time) (r : nat) (pool : PoolStatus) :
  filter isHeader (linesOf c r pool) = (if draining pool then [headerOf pool] else [])
  /\ filter isBlank (linesOf c r pool) = (if draining pool then [LBlank] else [])
  /\ filter isNoPools (linesOf c r pool) = []
  /\ readsAfter c r pool
     = ((if draining pool then 2 else 0)
        + List.length (filter isETA (linesOf c r pool)) + r)%nat.
Proof.
  unfold linesOf, readsAfter, draining.
  destruct (Decommission pool) as [d|] eqn:D.
  - destruct (skipped pool); cbn [negb]; [repeat split; reflexivity|].
    destruct (poolLines_kinds pool d (c r) (c (S r)) (c (S (S r)))) as (A & B & C & E).
    rewrite A, B, C, <- E. repeat split; reflexivity.
  - unfold skipped. rewrite D. cbn [negb]. repeat split; reflexivity.
Qed.

Lemma loopLines_kinds (pools : list PoolStatus) : forall (c : nat -> Time.Time) (r : nat),
  filter isHeader (loopLines c r pools) = map headerOf (filter draining pools)
  /\ List.length (filter isBlank (loopLines c r pools))
     = List.length (filter draining pools)
  /\ filter isNoPools (loopLines c r pools) = []
  /\ loopReads c r pools
     = (r + 2 * List.length (filter draining pools)
        + List.length (filter isETA (loopLines c r pools)))%nat.
Proof.
  induction pools as [|p ps IH]; intros c r.
  - cbn. repeat split; lia.
  - cbn [loopLines loopReads filter]. rewrite !filter_app.
    destruct (linesOf_kinds c r p) as (A & B & C & E).
    set (r' := readsAfter c r p) in *.
    destruct (IH c r') as (A' & B' & C' & E').
    rewrite A, B, C, A', C', E'. rewrite !length_app, B'.
    destruct (draining p); cbn [map app List.length] in *; repeat split; lia.
Qed.

Lemma linesOf_frozen (now : Time.Time) (r : nat) (pool : PoolStatus) :
  linesOf (frozen now) r pool = printed (iteration pool false) (initial (frozen now)).
Proof.
  unfold printed. rewrite iteration_run. cbn [snd stdout initial clock reads].
  reflexivity.
Qed.

Lemma loopLines_frozen (now : Time.Time) (pools : list PoolStatus) : forall r : nat,
  loopLines (frozen now) r pools
  = flat_map (fun p => printed (iteration p false) (initial (frozen now))) pools.
Proof.
  induction pools as [|p ps IH]; intros r; [reflexivity|].
  cbn [loopLines flat_map]. rewrite IH, linesOf_frozen. reflexivity.
Qed.

(** Beyond the range of [Duration] the multiplication of line 157 wraps
    around: with 1 MiB freed of 8 PiB after twelve seconds the estimate
    is about 3266 years, and the ETA printed is before the clock
    reading, with the text of a negative duration. *)
Example eta_overflow :
  let now := 63900000000 * Time.Second in
  let d := mkDecom (now - 12 * Time.Second) 0 (2 ^ 53) (2 ^ 20) false false false in
  let pool := mkPool 0 "pool" (Some d) in
  let w := initial (frozen now) in
  Float64.to_int (etaSecondsOf d (elapsedAt w d)) = 103079215092
  /\ ~ (F2Q (etaSecondsOf d (elapsedAt w d)) * inject_Z Time.Second < inject_Z (2 ^ 63))%Q
  /\ exists eta,
       filter isETA (printed (iteration pool false) w) = [LETA eta "< 1m"]
       /\ eta < now.
Proof.
  intros now d pool w. split; [vm_compute; reflexivity|]. split.
  - vm_compute. discriminate.
  - eexists. split; [vm_compute; reflexivity|]. vm_compute. reflexivity.
Qed.

(* ================================================================= *)
(** * The claims *)

(** C1.  A draining pool (non-zero [StartTime], no terminal flag) gets
    the "starting" output, that is the header, the start line, the
    placeholder and the blank line and none of the progress, usage,
    speed or ETA lines, exactly when [bytesFreed <= 0], or
    [initialUsed <= 0], or the elapsed time is at most ten seconds.
    [bytesFreed] and [initialUsed] are the [int64] differences of the
    code; they are the exact differences whenever these fit in [int64].
    The elapsed time is the saturated difference [time.Since] returns,
    which is at most ten seconds exactly when the exact difference is.
    With [TotalSize = 2000], [StartSize = 1000], [CurrentSize = 1000]
    the output is the starting one whatever the elapsed time. *)
Theorem C1_starting_iff_not_enough_signal (pool : PoolStatus)
  (d : PoolDecommissionInfo) (hd : bool) (w : World) :
  Decommission pool = Some d -> skipped pool = false ->
  let starting := [ LPool (Int64.add (ID pool) 1) (CmdLine pool);
                    LStarted (StartTime d) (clock w (S (reads w)));
                    LStarting; LBlank ] in
  (printed (iteration pool hd) w = starting
   <-> bytesFreed d <= 0 \/ initialUsed d <= 0 \/ elapsedAt w d <= 10 * Time.Second)
  /\ (existsb isProgressLine (printed (iteration pool hd) w) = false
      <-> bytesFreed d <= 0 \/ initialUsed d <= 0 \/ elapsedAt w d <= 10 * Time.Second)
  /\ (Int64.in_range (CurrentSize d - StartSize d) ->
      bytesFreed d = CurrentSize d - StartSize d)
  /\ (Int64.in_range (TotalSize d - StartSize d) ->
      initialUsed d = TotalSize d - StartSize d)
  /\ (elapsedAt w d <= 10 * Time.Second
      <-> clock w (reads w) - StartTime d <= 10 * Time.Second)
  /\ (TotalSize d = 2000 -> StartSize d = 1000 -> CurrentSize d = 1000 ->
      printed (iteration pool hd) w = starting).
Proof.
  intros HD HS starting.
  rewrite (printed_draining pool d hd w HD HS). unfold poolLines.
  pose proof (enoughSignal_spec d (elapsedAt w d) (Sub_in_range _ _)) as ES.
  fold (elapsedAt w d).
  assert (A : (if enoughSignal d (elapsedAt w d)
               then progressLines d (elapsedAt w d) (clock w (S (S (reads w))))
               else [LStarting]) = [LStarting]
              <-> enoughSignal d (elapsedAt w d) = false).
  { destruct (enoughSignal d (elapsedAt w d)); split; try reflexivity; discriminate. }
  assert (B : enoughSignal d (elapsedAt w d) = false
              <-> bytesFreed d <= 0 \/ initialUsed d <= 0
                  \/ elapsedAt w d <= 10 * Time.Second).
  { destruct (enoughSignal d (elapsedAt w d)).
    - split; [discriminate|]. intros H. destruct ES as [ES _]. specialize (ES eq_refl). lia.
    - split; [intros _ | reflexivity].
      destruct (Z.ltb_spec 0 (bytesFreed d)); [|lia].
      destruct (Z.ltb_spec 0 (initialUsed d)); [|lia].
      destruct (Z.ltb_spec (10 * Time.Second) (elapsedAt w d)); [|lia].
      destruct ES as [_ ES]. specialize (ES ltac:(lia)). discriminate. }
  split; [|split; [|split; [|split; [|split]]]].
  - rewrite <- B. unfold starting. cbn [app]. split.
    + intros E. destruct (enoughSignal d (elapsedAt w d)); [discriminate E | reflexivity].
    + intros ->. reflexivity.
  - rewrite <- B. destruct (enoughSignal d (elapsedAt w d)); cbn; split; congruence.
  - intros R. unfold bytesFreed, Int64.sub. now apply wrap_id.
  - intros R. unfold initialUsed, Int64.sub. now apply wrap_id.
  - unfold elapsedAt, Time.Sub, Time.minDuration, Time.maxDuration,
      Int64.min_int, Int64.max_int, Time.Second.
    destruct (Z.ltb_spec (clock w (reads w) - StartTime d) (- 2 ^ 63)); [lia|].
    destruct (Z.ltb_spec (2 ^ 63 - 1) (clock w (reads w) - StartTime d)); lia.
  - intros T S C.
    assert (E : enoughSignal d (elapsedAt w d) = false).
    { apply B. left. unfold bytesFreed. rewrite S, C. vm_compute. discriminate. }
    rewrite E. reflexivity.
Qed.

Lemma C1_witness :
  let now := 63900000000 * Time.Second in
  let d := mkDecom (now - 60 * Time.Second) 1000 2000 1000 false false false in
  let pool := mkPool 0 "pool" (Some d) in
  let w := initial (frozen now) in
  elapsedAt w d = 60 * Time.Second
  /\ printed (iteration pool false) w
     = [ LPool 1 "pool"; LStarted (now - 60 * Time.Second) now; LStarting; LBlank ].
Proof.
  intros now d pool w. split; [reflexivity|].
  apply (C1_starting_iff_not_enough_signal pool d false w); reflexivity.
Defined.

(** C2.  A pool whose decommission record has a zero [StartTime], or one
    of the flags [Complete], [Failed], [Canceled] set, is passed over
    whatever its other fields hold: the iteration leaves the world as it
    was (no line printed, no division, no reading of the clock),
    [hasDraining] keeps its value, and the loop goes on as if the pool
    were not in the list. *)
Theorem C2_not_draining_is_skipped (pool : PoolStatus) (d : PoolDecommissionInfo)
  (rest : list PoolStatus) (hd : bool) (w : World) :
  Decommission pool = Some d ->
  Time.IsZero (StartTime d) = true \/ Complete d = true \/ Failed d = true
    \/ Canceled d = true ->
  iteration pool hd w = (hd, w)
  /\ printed (iteration pool hd) w = []
  /\ divided (iteration pool hd) w = []
  /\ loop (pool :: rest) hd w = loop rest hd w.
Proof.
  intros HD H.
  assert (HS : skipped pool = true).
  { unfold skipped. rewrite HD.
    destruct H as [-> | [-> | [-> | ->]]]; cbn;
      repeat rewrite orb_true_r; reflexivity. }
  pose proof (iteration_skipped pool hd w HS) as E.
  repeat split.
  - exact E.
  - unfold printed. rewrite E. apply skipn_all.
  - unfold divided. rewrite E. apply skipn_all.
  - cbn [loop]. unfold bind. now rewrite E.
Qed.

Lemma C2_witness :
  let d := mkDecom 0 5 100 50 false false false in
  let pool := mkPool 0 "pool" (Some d) in
  let w := initial (frozen 1000) in
  iteration pool false w = (false, w)
  /\ printed (iteration pool false) w = []
  /\ divided (iteration pool false) w = []
  /\ loop (pool :: []) false w = loop [] false w.
Proof.
  intros d pool w.
  apply (C2_not_draining_is_skipped pool d [] false w).
  - reflexivity.
  - left. reflexivity.
Defined.

(** C3.  For a pool in progress (bytes freed and initial use positive,
    more than ten seconds elapsed) the iteration prints an ETA line
    exactly when the progress fraction [p] satisfies [0 < p] and
    [p < 1]; when [1 <= p], or [p <= 0], no ETA line is printed.  In
    progress [0 < p] always holds; and as long as [initialUsed] is at
    most [2^53] bytes, the float64 fraction is below 1 exactly when
    [bytesFreed < initialUsed]. *)
Theorem C3_eta_iff_fraction_strictly_between_0_and_1 (pool : PoolStatus)
  (d : PoolDecommissionInfo) (hd : bool) (w : World) :
  Decommission pool = Some d -> skipped pool = false ->
  enoughSignal d (elapsedAt w d) = true ->
  (existsb isETA (printed (iteration pool hd) w) = true
   <-> Float64.ltb zero (progressOf d) = true
       /\ Float64.ltb (progressOf d) one = true)
  /\ (Float64.leb one (progressOf d) = true ->
      existsb isETA (printed (iteration pool hd) w) = false)
  /\ (Float64.leb (progressOf d) zero = true ->
      existsb isETA (printed (iteration pool hd) w) = false)
  /\ Float64.ltb zero (progressOf d) = true
  /\ (initialUsed d <= 2 ^ 53 ->
      (existsb isETA (printed (iteration pool hd) w) = true
       <-> bytesFreed d < initialUsed d)).
Proof.
  intros HD HS HE.
  assert (P1 : initialUsed d <= 2 ^ 53 ->
               (Float64.ltb (progressOf d) one = true <-> bytesFreed d < initialUsed d)).
  { intros U53. pose proof HE as HE'.
    apply (enoughSignal_spec d _ (Sub_in_range _ _)) in HE'. destruct HE' as (B & U & _).
    apply progress_lt_1; [exact B | exact U | apply wrap_in_range | exact U53]. }
  assert (P0 : Float64.ltb zero (progressOf d) = true).
  { apply (enoughSignal_spec d _ (Sub_in_range _ _)) in HE. destruct HE as (B & U & _).
    apply progress_pos; [exact B | exact U | apply wrap_in_range | apply wrap_in_range]. }
  rewrite (printed_draining pool d hd w HD HS).
  unfold poolLines. unfold elapsedAt in HE. rewrite HE.
  unfold progressLines, etaLines. cbn [app existsb isETA orb].
  assert (X : existsb isETA
                ((if showsETA d
                  then [LETA (Time.Add (clock w (S (S (reads w))))
                                (etaDurationOf d (Time.Sub (clock w (reads w)) (StartTime d))))
                          (formatDuration
                             (etaDurationOf d (Time.Sub (clock w (reads w)) (StartTime d))))]
                  else []) ++ [LBlank]) = showsETA d).
  { destruct (showsETA d); reflexivity. }
  rewrite X. unfold showsETA, Float64.gtb.
  split; [|split; [|split; [|split]]].
  - apply andb_true_iff.
  - intros L. rewrite (leb_not_ltb _ _ L). apply andb_false_r.
  - intros L. rewrite (leb_not_ltb _ _ L). reflexivity.
  - exact P0.
  - intros U53. rewrite P0. cbn [andb]. exact (P1 U53).
Qed.

Lemma C3_witness :
  let d := mkDecom 1000000000 0 1073741824 229638144 false false false in
  let pool := mkPool 0 "pool" (Some d) in
  let w := initial (frozen 91000000000) in
  existsb isETA (printed (iteration pool false) w) = true
  <-> Float64.ltb zero (progressOf d) = true /\ Float64.ltb (progressOf d) one = true.
Proof.
  intros d pool w.
  apply (C3_eta_iff_fraction_strictly_between_0_and_1 pool d false w);
    vm_compute; reflexivity.
Defined.

(** C4 as stated fails on its own scenario: the ETA printed is
    [now + 330 s], while [now + (E / P - E)] lies strictly between
    [now + 330 s] and [now + 331 s]; and the progress fraction is
    [219 / 1024], about 0.2139, not 0.2037. *)
Lemma C4_counterexample :
  let now := 63900000000 * Time.Second in
  let d := mkDecom (now - 90 * Time.Second) 0 1073741824 229638144 false false false in
  let pool := mkPool 0 "pool" (Some d) in
  let w := initial (frozen now) in
  let etaSeconds := etaSecondsOf d (elapsedAt w d) in
  filter isETA (printed (iteration pool false) w) = [LETA (now + 330 * Time.Second) "5m"]
  /\ (inject_Z (now + 330 * Time.Second)
      < inject_Z now + F2Q etaSeconds * inject_Z Time.Second)%Q
  /\ (F2Q (progressOf d) == 219 # 1024)%Q
  /\ ~ (F2Q (progressOf d) <= 2038 # 10000)%Q.
Proof.
  intros now d pool w etaSeconds. split; [|split; [|split]].
  - vm_compute. reflexivity.
  - vm_compute. reflexivity.
  - vm_compute. reflexivity.
  - vm_compute. intros H. apply H. reflexivity.
Qed.

(** C4, amended.  When [0 < progress < 1] the ETA printed is the reading
    of the clock taken at that point plus [etaDuration], where
    [etaDuration] is the float64 value [E / P - E] converted to [int64]
    (truncated toward zero) and multiplied by one second in [int64].
    For [TotalSize = 2^30], [StartSize = 0], [CurrentSize = 229638144],
    started 90 s before [now] with the clock at [now]: [initialUsed] is
    1 GiB, [bytesFreed] is 219 MiB, the progress fraction is [219/1024]
    and the ETA is [now + 330 s], after [now]. *)
Theorem C4_eta_is_now_plus_truncated_seconds (pool : PoolStatus)
  (d : PoolDecommissionInfo) (hd : bool) (w : World) :
  Decommission pool = Some d -> skipped pool = false ->
  enoughSignal d (elapsedAt w d) = true ->
  Float64.ltb zero (progressOf d) = true -> Float64.ltb (progressOf d) one = true ->
  let E := Time.Seconds (elapsedAt w d) in
  let etaSeconds := Float64.sub (Float64.div E (progressOf d)) E in
  let etaDuration := Int64.mul (Float64.to_int etaSeconds) Time.Second in
  filter isETA (printed (iteration pool hd) w)
  = [LETA (Time.Add (clock w (S (S (reads w)))) etaDuration) (formatDuration etaDuration)]
  /\ (Int64.in_range (Float64.to_int etaSeconds * Time.Second) ->
      etaDuration = Float64.to_int etaSeconds * Time.Second)
  /\ (normal etaSeconds -> (F2Q etaSeconds < inject_Z (2 ^ 63))%Q ->
      (inject_Z (Float64.to_int etaSeconds) <= F2Q etaSeconds)%Q
      /\ (F2Q etaSeconds < inject_Z (Float64.to_int etaSeconds) + 1)%Q)
  /\ (forall now : Time.Time,
        let s := mkDecom (now - 90 * Time.Second) 0 1073741824 229638144
                   false false false in
        initialUsed s = 2 ^ 30 /\ bytesFreed s = 219 * 2 ^ 20
        /\ (F2Q (progressOf s) == 219 # 1024)%Q
        /\ Time.Add now (etaDurationOf s (Time.Sub now (StartTime s)))
           = now + 330 * Time.Second
        /\ now < Time.Add now (etaDurationOf s (Time.Sub now (StartTime s)))).
Proof.
  intros HD HS HE P0 P1 E etaSeconds etaDuration.
  split; [|split; [|split]].
  - rewrite (printed_draining pool d hd w HD HS). unfold poolLines.
    fold (elapsedAt w d). rewrite HE. unfold progressLines, etaLines, showsETA.
    unfold Float64.gtb. rewrite P0, P1. reflexivity.
  - intros R. unfold etaDuration, Int64.mul. now apply wrap_id.
  - intros N U.
    assert (L : (inject_Z 0 <= F2Q etaSeconds)%Q)
      by (pose proof (normal_pos _ N); change (inject_Z 0) with 0%Q; lra).
    destruct (to_int_floor etaSeconds 0 (2 ^ 63) N L U ltac:(lia)) as (_ & A & B).
    split; assumption.
  - intros now s.
    assert (Es : Time.Sub now (StartTime s) = 90 * Time.Second).
    { unfold s. cbn [StartTime]. unfold Time.Sub.
      replace (now - (now - 90 * Time.Second)) with (90 * Time.Second) by lia.
      reflexivity. }
    rewrite Es.
    assert (Ed : etaDurationOf s (90 * Time.Second) = 330 * Time.Second)
      by (vm_compute; reflexivity).
    rewrite Ed. unfold Time.Add.
    repeat split; try (vm_compute; reflexivity). unfold Time.Second. lia.
Qed.

Lemma C4_witness :
  let now := 63900000000 * Time.Second in
  let d := mkDecom (now - 90 * Time.Second) 0 1073741824 229638144 false false false in
  let pool := mkPool 0 "pool" (Some d) in
  let w := initial (frozen now) in
  filter isETA (printed (iteration pool false) w)
  = [LETA (now + 330 * Time.Second) "5m"].
Proof.
  intros now d pool w.
  apply (C4_eta_is_now_plus_truncated_seconds pool d false w); vm_compute; reflexivity.
Defined.






(** C7.  When every pool of the list is passed over (none is draining),
    and in particular when the list is empty, the report consists of the
    one line "No pools are currently being decommissioned." *)
Theorem C7_no_draining_pool_message (pools : list PoolStatus) (c : nat -> Time.Time) :
  Forall (fun p => skipped p = true) pools ->
  stdout (snd (report pools (initial c))) = [LNoPools]
  /\ forall IBytes RelTime FormatRFC3339 sprintf_1f,
       render_all IBytes RelTime FormatRFC3339 sprintf_1f
         (stdout (snd (report pools (initial c))))
       = ("No pools are currently being decommissioned." ++ nl)%string.
Proof.
  intros H. unfold report, bind.
  rewrite (loop_all_skipped pools false (initial c) H). cbn.
  split; [reflexivity|]. intros. reflexivity.
Qed.

Lemma C7_witness :
  stdout (snd (report [] (initial (frozen 0)))) = [LNoPools]
  /\ stdout (snd (report [mkPool 2 "p" None] (initial (frozen 0)))) = [LNoPools].
Proof.
  split.
  - apply (C7_no_draining_pool_message [] (frozen 0)). constructor.
  - apply (C7_no_draining_pool_message [mkPool 2 "p" None] (frozen 0)).
    repeat constructor.
Defined.

(** C8 as stated fails when [CurrentSize - StartSize] leaves the range
    of [int64]: from [CurrentSize = -2^63] to [CurrentSize = 2^62 + 1]
    with [StartSize = 2^62], both pools being in progress, [bytesFreed]
    drops from [2^62] to [1] and the progress fraction decreases. *)
Lemma C8_counterexample :
  let d1 := mkDecom 1000 (2 ^ 62) (2 ^ 62 + 5) (- 2 ^ 63) false false false in
  let d2 := mkDecom 1000 (2 ^ 62) (2 ^ 62 + 5) (2 ^ 62 + 1) false false false in
  let elapsed := 60 * Time.Second in
  wf_decom d1 /\ wf_decom d2
  /\ enoughSignal d1 elapsed = true /\ enoughSignal d2 elapsed = true
  /\ CurrentSize d1 < CurrentSize d2
  /\ Float64.leb (progressOf d1) (progressOf d2) = false
  /\ Float64.ltb (progressOf d2) (progressOf d1) = true.
Proof.
  intros d1 d2 elapsed. unfold wf_decom, Int64.in_range.
  repeat split; vm_compute; congruence.
Qed.

(** C8, amended.  For two records that agree on every field but
    [CurrentSize], both in progress, and for which the subtraction
    [CurrentSize - StartSize] does not overflow [int64] (as when the
    counters are not negative), the one with the larger [CurrentSize]
    has a progress fraction at least as large. *)
Theorem C8_progress_monotone_without_overflow (d1 d2 : PoolDecommissionInfo)
  (elapsed1 elapsed2 : Time.Duration) :
  StartTime d1 = StartTime d2 -> StartSize d1 = StartSize d2 ->
  TotalSize d1 = TotalSize d2 -> Complete d1 = Complete d2 ->
  Failed d1 = Failed d2 -> Canceled d1 = Canceled d2 ->
  Int64.in_range (CurrentSize d1 - StartSize d1) ->
  Int64.in_range (CurrentSize d2 - StartSize d2) ->
  enoughSignal d1 elapsed1 = true -> enoughSignal d2 elapsed2 = true ->
  CurrentSize d1 <= CurrentSize d2 ->
  Float64.leb (progressOf d1) (progressOf d2) = true.
Proof.
  intros _ ES ET _ _ _ R1 R2 E1 E2 HC.
  unfold enoughSignal in E1, E2.
  apply andb_true_iff in E1, E2. destruct E1 as [E1 _], E2 as [E2 _].
  apply andb_true_iff in E1, E2. destruct E1 as [B1 U1], E2 as [B2 U2].
  apply Z.ltb_lt in B1, U1, B2, U2.
  unfold progressOf.
  assert (EU : initialUsed d1 = initialUsed d2).
  { unfold initialUsed. now rewrite ES, ET. }
  pose proof (wrap_in_range (TotalSize d2 - StartSize d2)) as RU.
  fold (Int64.sub (TotalSize d2) (StartSize d2)) in RU. fold (initialUsed d2) in RU.
  assert (V1 : bytesFreed d1 = CurrentSize d1 - StartSize d1)
    by (unfold bytesFreed, Int64.sub; now apply wrap_id).
  assert (V2 : bytesFreed d2 = CurrentSize d2 - StartSize d2)
    by (unfold bytesFreed, Int64.sub; now apply wrap_id).
  rewrite EU.
  unfold Int64.in_range, Int64.min_int, Int64.max_int in *.
  apply progress_mono; lia.
Qed.

Lemma C8_witness :
  let d1 := mkDecom 1000 0 1073741824 229638144 false false false in
  let d2 := mkDecom 1000 0 1073741824 500000000 false false false in
  Float64.leb (progressOf d1) (progressOf d2) = true.
Proof.
  intros d1 d2.
  apply (C8_progress_monotone_without_overflow d1 d2 (60 * Time.Second) (60 * Time.Second));
    try reflexivity;
    try (unfold Int64.in_range; vm_compute; intuition discriminate).
Defined.



(** C10.  For every strictly negative duration [formatDuration]
    returns "< 1m": the three counts are not positive. *)
Theorem C10_formatDuration_negative (d : Time.Duration) :
  Int64.min_int <= d < 0 ->
  formatDuration d = "< 1m"%string
  /\ Float64.to_int (Time.Hours d) <= 0 /\ Float64.to_int (Time.Minutes d) <= 0.
Proof.
  intros Hd. destruct unit_ranges as (UM & UH & EH & EM & ES).
  split; [apply formatDuration_negative; exact Hd|]. split.
  - rewrite Hours_units. apply nonpos_to_int, units_nonpos; lia.
  - rewrite Minutes_units. apply nonpos_to_int, units_nonpos; lia.
Qed.

Lemma C10_witness : formatDuration (- (5 * Time.Hour)) = "< 1m"%string.
Proof.
  apply (C10_formatDuration_negative (- (5 * Time.Hour))).
  vm_compute. intuition discriminate.
Defined.

(* ================================================================= *)
(** * Further properties of the code *)

(** X1.  The pools the loop passes over (no decommission record, zero
    start time, or a terminal flag) leave no trace: the report of a list
    of pools is the report of its draining pools, for the output, the
    readings of the clock and the divisions alike. *)
Theorem X1_report_ignores_skipped_pools (pools : list PoolStatus) (w : World) :
  report pools w = report (filter draining pools) w.
Proof.
  unfold report, bind. rewrite (loop_filter pools false w). reflexivity.
Qed.

(** X2.  The header lines of the report are those of the draining pools,
    in the order of the list, each numbered [ID + 1] (in [int64]) with
    the pool's command line; and each draining pool ends with one blank
    line. *)
Theorem X2_report_headers_in_order (pools : list PoolStatus) (w : World) :
  filter isHeader (printed (report pools) w)
  = map (fun p => LPool (Int64.add (ID p) 1) (CmdLine p)) (filter draining pools)
  /\ List.length (filter isBlank (printed (report pools) w))
     = List.length (filter draining pools).
Proof.
  rewrite printed_report, !filter_app.
  destruct (loopLines_kinds pools (clock w) (reads w)) as (A & B & _ & _).
  rewrite A, length_app, B.
  destruct (existsb draining pools); cbn [filter isHeader isBlank List.length];
    rewrite app_nil_r; split; (reflexivity || lia).
Qed.

(** X3.  The line "No pools are currently being decommissioned." is
    printed exactly when no pool of the list is draining; as soon as one
    pool is draining it appears nowhere in the output. *)
Theorem X3_no_pools_message_iff_none_draining (pools : list PoolStatus) (w : World) :
  In LNoPools (printed (report pools) w) <-> existsb draining pools = false.
Proof.
  rewrite printed_report.
  destruct (loopLines_kinds pools (clock w) (reads w)) as (_ & _ & C & _).
  assert (N : ~ In LNoPools (loopLines (clock w) (reads w) pools)).
  { intros I. assert (I' : In LNoPools (filter isNoPools (loopLines (clock w) (reads w) pools)))
      by (apply filter_In; split; [exact I | reflexivity]).
    rewrite C in I'. exact I'. }
  destruct (existsb draining pools).
  - rewrite app_nil_r. split; [intros I; contradiction | discriminate].
  - split; [reflexivity|]. intros _. apply in_or_app. right. left. reflexivity.
Qed.

(** X4.  With the clock stopped, the report is the concatenation, in
    the order of the list, of what the iteration prints for each pool
    taken alone, followed by the no-pool line when no pool is draining:
    what is printed for one pool does not depend on the other pools. *)
Theorem X4_report_is_concatenation_of_pools (pools : list PoolStatus)
  (now : Time.Time) (r : nat) (out : list line) (dv : list float64) :
  printed (report pools) (mkWorld (frozen now) r out dv)
  = flat_map (fun p => printed (iteration p false) (initial (frozen now))) pools
    ++ (if existsb draining pools then [] else [LNoPools]).
Proof.
  rewrite printed_report. cbn [clock reads]. rewrite loopLines_frozen. reflexivity.
Qed.

(** X5.  The report reads the clock twice for each draining pool (for
    the elapsed time and for the "Started" line) and once more for each
    ETA line it prints, and at no other point. *)
Theorem X5_report_clock_readings (pools : list PoolStatus) (w : World) :
  reads (snd (report pools w))
  = (reads w + 2 * List.length (filter draining pools)
     + List.length (filter isETA (printed (report pools) w)))%nat.
Proof.
  rewrite printed_report, report_run. cbn [snd reads].
  destruct (loopLines_kinds pools (clock w) (reads w)) as (_ & _ & _ & E).
  rewrite E, filter_app, length_app.
  destruct (existsb draining pools); cbn [filter isETA List.length]; lia.
Qed.

(** X6.  The three quantities of lines 131-133 are consistent even when
    the subtractions wrap around: [usedNow + bytesFreed], added in
    [int64], is [initialUsed]. *)
Theorem X6_used_plus_freed_is_initial (d : PoolDecommissionInfo) :
  Int64.add (usedNow d) (bytesFreed d) = initialUsed d.
Proof.
  unfold usedNow, bytesFreed, initialUsed, Int64.add, Int64.sub.
  destruct (wrap_eq (TotalSize d - CurrentSize d)) as [k1 ->].
  destruct (wrap_eq (CurrentSize d - StartSize d)) as [k2 ->].
  apply (wrap_congr _ _ (k1 + k2)). lia.
Qed.

(** X7.  For a pool in progress whose [bytesFreed] has reached or
    passed [initialUsed], whatever the sizes, no ETA line is printed. *)
Theorem X7_no_eta_once_everything_is_freed (pool : PoolStatus)
  (d : PoolDecommissionInfo) (hd : bool) (w : World) :
  Decommission pool = Some d -> skipped pool = false ->
  enoughSignal d (elapsedAt w d) = true ->
  initialUsed d <= bytesFreed d ->
  existsb isETA (printed (iteration pool hd) w) = false.
Proof.
  intros HD HS HE H.
  pose proof HE as HE'.
  apply (enoughSignal_spec d _ (Sub_in_range _ _)) in HE'. destruct HE' as (B & U & _).
  destruct (progress_vs_one d B U) as [Ge _]. specialize (Ge H).
  rewrite (printed_draining pool d hd w HD HS). unfold poolLines.
  fold (elapsedAt w d). rewrite HE. unfold progressLines, etaLines, showsETA.
  rewrite (leb_not_ltb _ _ Ge), andb_false_r. reflexivity.
Qed.

Lemma X7_witness :
  let d := mkDecom 1000000000 0 1000 1500 false false false in
  let pool := mkPool 0 "pool" (Some d) in
  let w := initial (frozen 91000000000) in
  existsb isETA (printed (iteration pool false) w) = false.
Proof.
  intros d pool w.
  apply (X7_no_eta_once_everything_is_freed pool d false w);
    vm_compute; (reflexivity || discriminate).
Defined.

(** X8.  For a pool in progress the "Progress" line shows [bytesFreed]
    and [initialUsed] themselves (the conversion to [uint64] does not
    change them), and a percentage that is greater than zero; it is at
    most 100 when [bytesFreed <= initialUsed] and at least 100 when
    [initialUsed <= bytesFreed]. *)
Theorem X8_progress_percentage_range (pool : PoolStatus)
  (d : PoolDecommissionInfo) (hd : bool) (w : World) :
  Decommission pool = Some d -> skipped pool = false ->
  enoughSignal d (elapsedAt w d) = true ->
  exists percent : float64,
    filter isProgress (printed (iteration pool hd) w)
    = [LProgress (bytesFreed d) (initialUsed d) percent]
    /\ Float64.ltb zero percent = true
    /\ (bytesFreed d <= initialUsed d ->
        Float64.leb percent (Float64.of_int 100) = true)
    /\ (initialUsed d <= bytesFreed d ->
        Float64.leb (Float64.of_int 100) percent = true).
Proof.
  intros HD HS HE. pose proof HE as HE'.
  apply (enoughSignal_spec d _ (Sub_in_range _ _)) in HE'. destruct HE' as (B & U & _).
  pose proof (wrap_in_range (CurrentSize d - StartSize d)) as [_ RB].
  pose proof (wrap_in_range (TotalSize d - StartSize d)) as [_ RU].
  fold (Int64.sub (CurrentSize d) (StartSize d)) in RB. fold (bytesFreed d) in RB.
  fold (Int64.sub (TotalSize d) (StartSize d)) in RU. fold (initialUsed d) in RU.
  unfold Int64.max_int in *.
  exists (Float64.mul (progressOf d) (Float64.of_int 100)).
  split; [|apply percent_range; assumption].
  rewrite (printed_draining pool d hd w HD HS). unfold poolLines.
  fold (elapsedAt w d). rewrite HE. unfold progressLines, etaLines.
  unfold Int64.to_uint64. rewrite !Z.mod_small by lia.
  destruct (showsETA d); reflexivity.
Qed.

Lemma X8_witness :
  let d := mkDecom 1000000000 0 1073741824 229638144 false false false in
  let pool := mkPool 0 "pool" (Some d) in
  let w := initial (frozen 91000000000) in
  exists percent : float64,
    filter isProgress (printed (iteration pool false) w)
    = [LProgress (bytesFreed d) (initialUsed d) percent]
    /\ Float64.ltb zero percent = true
    /\ (bytesFreed d <= initialUsed d ->
        Float64.leb percent (Float64.of_int 100) = true)
    /\ (initialUsed d <= bytesFreed d ->
        Float64.leb (Float64.of_int 100) percent = true).
Proof.
  intros d pool w.
  apply (X8_progress_percentage_range pool d false w); vm_compute; reflexivity.
Defined.

(** X9.  When an ETA is shown and the estimate fits a [Duration] (the
    remaining seconds, in nanoseconds, are below [2^63]), the ETA is the
    reading of the clock plus a whole number [n >= 0] of seconds, [n]
    being [etaSeconds] rounded down: the ETA is never before that
    reading of the clock. *)
Theorem X9_eta_not_before_now (pool : PoolStatus)
  (d : PoolDecommissionInfo) (hd : bool) (w : World) :
  Decommission pool = Some d -> skipped pool = false ->
  enoughSignal d (elapsedAt w d) = true ->
  Float64.ltb (progressOf d) one = true ->
  (F2Q (etaSecondsOf d (elapsedAt w d)) * inject_Z Time.Second < inject_Z (2 ^ 63))%Q ->
  let n := Float64.to_int (etaSecondsOf d (elapsedAt w d)) in
  let now := clock w (S (S (reads w))) in
  0 <= n
  /\ (inject_Z n <= F2Q (etaSecondsOf d (elapsedAt w d)))%Q
  /\ (F2Q (etaSecondsOf d (elapsedAt w d)) < inject_Z n + 1)%Q
  /\ exists eta text,
       filter isETA (printed (iteration pool hd) w) = [LETA eta text]
       /\ eta = now + n * Time.Second
       /\ now <= eta.
Proof.
  intros HD HS HE P1 Fit n now. pose proof HE as HE'.
  apply (enoughSignal_spec d _ (Sub_in_range _ _)) in HE'. destruct HE' as (B & U & EL).
  pose proof (Sub_in_range (clock w (reads w)) (StartTime d)) as [_ EM].
  fold (elapsedAt w d) in EM.
  destruct (eta_duration d (elapsedAt w d) B U (conj EL EM) P1 Fit)
    as (N0 & _ & ED & Lo & Hi). fold n in N0, ED, Lo, Hi.
  split; [exact N0|]. split; [exact Lo|]. split; [exact Hi|].
  exists (now + n * Time.Second), (formatDuration (n * Time.Second)).
  split; [|split; [reflexivity | unfold Time.Second; lia]].
  pose proof (progress_pos d B U (wrap_in_range _) (wrap_in_range _)) as P0.
  rewrite (printed_draining pool d hd w HD HS). unfold poolLines.
  fold (elapsedAt w d). rewrite HE. unfold progressLines, etaLines, showsETA.
  unfold Float64.gtb. rewrite P0, P1, ED. reflexivity.
Qed.

Lemma X9_witness :
  let d := mkDecom 1000000000 0 1073741824 229638144 false false false in
  let pool := mkPool 0 "pool" (Some d) in
  let w := initial (frozen 91000000000) in
  exists eta text,
    filter isETA (printed (iteration pool false) w) = [LETA eta text]
    /\ eta = clock w 2 + Float64.to_int (etaSecondsOf d (elapsedAt w d)) * Time.Second
    /\ clock w 2 <= eta.
Proof.
  intros d pool w.
  apply (X9_eta_not_before_now pool d false w); vm_compute; reflexivity.
Defined.

(** X10.  Under the same conditions the text of the ETA line is the
    compact form of the days, hours and minutes of the [n] whole seconds
    remaining, with no rounding; it is "< 1m" exactly when fewer than
    60 seconds remain. *)
Theorem X10_eta_remaining_text (pool : PoolStatus)
  (d : PoolDecommissionInfo) (hd : bool) (w : World) :
  Decommission pool = Some d -> skipped pool = false ->
  enoughSignal d (elapsedAt w d) = true ->
  Float64.ltb (progressOf d) one = true ->
  (F2Q (etaSecondsOf d (elapsedAt w d)) * inject_Z Time.Second < inject_Z (2 ^ 63))%Q ->
  let n := Float64.to_int (etaSecondsOf d (elapsedAt w d)) in
  exists eta text,
    filter isETA (printed (iteration pool hd) w) = [LETA eta text]
    /\ text = compact (n / 86400) ((n / 3600) mod 24) ((n / 60) mod 60)
    /\ (text = "< 1m"%string <-> n < 60).
Proof.
  intros HD HS HE P1 Fit n. pose proof HE as HE'.
  apply (enoughSignal_spec d _ (Sub_in_range _ _)) in HE'. destruct HE' as (B & U & EL).
  pose proof (Sub_in_range (clock w (reads w)) (StartTime d)) as [_ EM].
  fold (elapsedAt w d) in EM.
  destruct (eta_duration d (elapsedAt w d) B U (conj EL EM) P1 Fit)
    as (N0 & NM & ED & _ & _). fold n in N0, NM, ED.
  assert (R : 0 <= n * Time.Second <= Int64.max_int) by (unfold Time.Second in *; lia).
  exists (Time.Add (clock w (S (S (reads w)))) (n * Time.Second)),
         (formatDuration (n * Time.Second)).
  split; [|split].
  - pose proof (progress_pos d B U (wrap_in_range _) (wrap_in_range _)) as P0.
    rewrite (printed_draining pool d hd w HD HS). unfold poolLines.
    fold (elapsedAt w d). rewrite HE. unfold progressLines, etaLines, showsETA.
    unfold Float64.gtb. rewrite P0, P1, ED. reflexivity.
  - rewrite (formatDuration_whole_seconds _ R) by (apply Z.mod_mul; discriminate).
    change (24 * Time.Hour) with (86400 * Time.Second).
    change Time.Hour with (3600 * Time.Second).
    change Time.Minute with (60 * Time.Second).
    rewrite !Z.div_mul_cancel_r by discriminate. reflexivity.
  - rewrite (formatDuration_sentinel _ R).
    change Time.Minute with (60 * Time.Second). unfold Time.Second. lia.
Qed.

Lemma X10_witness :
  let d := mkDecom 1000000000 0 1073741824 229638144 false false false in
  let pool := mkPool 0 "pool" (Some d) in
  let w := initial (frozen 91000000000) in
  let n := Float64.to_int (etaSecondsOf d (elapsedAt w d)) in
  exists eta text,
    filter isETA (printed (iteration pool false) w) = [LETA eta text]
    /\ text = compact (n / 86400) ((n / 3600) mod 24) ((n / 60) mod 60)
    /\ (text = "< 1m"%string <-> n < 60).
Proof.
  intros d pool w.
  apply (X10_eta_remaining_text pool d false w); vm_compute; reflexivity.
Defined.

(** X11.  For durations of a whole number of seconds the text of
    [formatDuration] depends only on the number of whole minutes: two
    such durations within the same minute give the same text. *)
Theorem X11_formatDuration_minute_granularity (d1 d2 : Time.Duration) :
  0 <= d1 <= Int64.max_int -> 0 <= d2 <= Int64.max_int ->
  d1 mod Time.Second = 0 -> d2 mod Time.Second = 0 ->
  d1 / Time.Minute = d2 / Time.Minute ->
  formatDuration d1 = formatDuration d2.
Proof.
  intros H1 H2 S1 S2 E.
  rewrite (formatDuration_by_minutes d1 H1 S1), (formatDuration_by_minutes d2 H2 S2), E.
  reflexivity.
Qed.

Lemma X11_witness :
  formatDuration (7260 * Time.Second) = formatDuration (7319 * Time.Second).
Proof.
  apply (X11_formatDuration_minute_granularity (7260 * Time.Second) (7319 * Time.Second));
    vm_compute; (reflexivity || intuition discriminate).
Defined.

(** X12.  [loadAlias] succeeds with [ac] exactly when the directory it
    uses (the given one, or [.mc] under the home directory when none is
    given) holds a readable [config.json] that parses to a configuration
    binding the alias to [ac]: it never returns an alias that is not in
    the file. *)
Theorem X12_loadAlias_succeeds_iff_bound (sys : System) (alias configDir : string)
  (ac : aliasConfig) :
  loadAlias sys alias configDir = Ok ac
  <-> exists dir data cfg,
        ((configDir <> ""%string /\ dir = configDir)
         \/ (configDir = ""%string
             /\ exists homeDir, UserHomeDir sys = Ok homeDir
                                /\ dir = Join sys homeDir ".mc"))
        /\ ReadFile sys (Join sys dir "config.json") = Ok data
        /\ Unmarshal sys data = Ok cfg
        /\ lookup (Aliases cfg) alias = Some ac.
Proof.
  unfold loadAlias. split.
  - destruct (String.eqb_spec configDir "") as [E|E].
    + destruct (UserHomeDir sys) as [homeDir|e] eqn:H; [|discriminate].
      destruct (ReadFile sys (Join sys (Join sys homeDir ".mc") "config.json"))
        as [data|e] eqn:R; [|discriminate].
      destruct (Unmarshal sys data) as [cfg|e] eqn:U; [|discriminate].
      destruct (lookup (Aliases cfg) alias) as [a|] eqn:L; [|discriminate].
      intros [= <-]. exists (Join sys homeDir ".mc"), data, cfg.
      split; [right; split; [exact E | exists homeDir; split; reflexivity]|].
      repeat split; assumption.
    + destruct (ReadFile sys (Join sys configDir "config.json")) as [data|e] eqn:R;
        [|discriminate].
      destruct (Unmarshal sys data) as [cfg|e] eqn:U; [|discriminate].
      destruct (lookup (Aliases cfg) alias) as [a|] eqn:L; [|discriminate].
      intros [= <-]. exists configDir, data, cfg.
      split; [left; split; [exact E | reflexivity]|].
      repeat split; assumption.
  - intros (dir & data & cfg & [[NE ->]|[-> (homeDir & H & ->)]] & R & U & L).
    + destruct (String.eqb_spec configDir "") as [E|_]; [contradiction|].
      rewrite R, U, L. reflexivity.
    + cbn [String.eqb]. rewrite H, R, U, L. reflexivity.
Qed.

(** X13.  Without [-config-dir] the alias is looked up in [.mc] under
    the home directory: when the home directory is known, the result is
    the one obtained by passing that directory explicitly. *)
Theorem X13_loadAlias_default_directory (sys : System) (alias homeDir : string) :
  UserHomeDir sys = Ok homeDir ->
  Join sys homeDir ".mc" <> ""%string ->
  loadAlias sys alias "" = loadAlias sys alias (Join sys homeDir ".mc").
Proof.
  intros H NE. unfold loadAlias. cbn [String.eqb]. rewrite H.
  destruct (String.eqb_spec (Join sys homeDir ".mc") "") as [E|_]; [contradiction|].
  reflexivity.
Qed.

Lemma X13_witness :
  loadAlias sampleSystem "myminio" "" = loadAlias sampleSystem "myminio" "/home/u/.mc".
Proof.
  apply (X13_loadAlias_default_directory sampleSystem "myminio" "/home/u").
  - reflexivity.
  - discriminate.
Defined.



(** X15.  [newAdminClient] returns a client only for a URL that parses
    and that [madmin.New] accepts.  The client is for the host of the
    URL with the keys of the alias; it is secure exactly when the scheme
    equals "https" under case folding, and exactly then its transport is
    replaced by one that does not verify certificates. *)
Theorem X15_newAdminClient_client (sys : System) (ac : aliasConfig)
  (client : AdminClient) :
  newAdminClient sys ac = Ok client
  <-> exists scheme host,
        ParseURL sys (URL ac) = Ok (scheme, host)
        /\ NewClient sys host (AccessKey ac) (SecretKey ac)
             (EqualFold sys scheme "https") = None
        /\ endpoint client = host
        /\ accessKeyID client = AccessKey ac
        /\ secretAccessKey client = SecretKey ac
        /\ secure client = EqualFold sys scheme "https"
        /\ customTransport client
           = (if secure client then Some (mkTransport true) else None).
Proof.
  unfold newAdminClient. split.
  - destruct (ParseURL sys (URL ac)) as [[scheme host]|e] eqn:P; [|discriminate].
    destruct (NewClient sys host (AccessKey ac) (SecretKey ac)
                (EqualFold sys scheme "https")) eqn:N; [discriminate|].
    intros [= <-]. exists scheme, host. cbn. repeat split. exact N.
  - intros (scheme & host & P & N & E1 & E2 & E3 & E4 & E5).
    rewrite P, N. destruct client as [e a s sec tr]. cbn in *. subst.
    reflexivity.
Qed.


